(** * Jogo da Vida animation: the generator and validator scripts

    A shallow embedding of [scripts/generate_svg.py] and
    [scripts/validate_svg.py].  Python lists are Rocq lists indexed the
    Python way (negative indices count from the end, anything else out of
    range raises [IndexError]); Python exceptions are the left summand of
    a small error monad; dictionaries of attributes are [gmap]s. *)

From stdpp Require Import base tactics option list strings pretty gmap.
From Stdlib Require Import ZArith Lia QArith Ascii.

Local Open Scope Z_scope.

(** ** Exceptions and the error monad *)

Inductive exn : Type :=
  | IndexError
  | ValueError
  | RuntimeError (msg : string)
  | OSError.

Inductive result (A : Type) : Type :=
  | Ok (a : A)
  | Raise (e : exn).

Arguments Ok {A} a.
Arguments Raise {A} e.

Definition bind {A B} (m : result A) (k : A → result B) : result B :=
  match m with
  | Ok a => k a
  | Raise e => Raise e
  end.

Notation "'let*' x ':=' m 'in' k" := (bind m (fun x => k))
  (at level 10, x name, m at level 100, k at level 200).

(** A [for] loop over a list that threads the loop-carried state and
    stops at the first exception. *)
Fixpoint for_each {A S} (body : A → S → result S) (l : list A) (s : S)
  : result S :=
  match l with
  | [] => Ok s
  | x :: l' => let* s' := body x s in for_each body l' s'
  end.

(** [range(n)] for a Python integer [n]: empty when [n <= 0]. *)
Definition range (n : Z) : list Z := seqZ 0 n.

(** ** Python list indexing *)

Definition norm_index {A} (l : list A) (i : Z) : result nat :=
  let n := Z.of_nat (length l) in
  if (0 <=? i) && (i <? n) then Ok (Z.to_nat i)
  else if (- n <=? i) && (i <? 0) then Ok (Z.to_nat (n + i))
  else Raise IndexError.

(** [l[i]] *)
Definition py_get {A} (l : list A) (i : Z) : result A :=
  let* k := norm_index l i in
  match l !! k with
  | Some x => Ok x
  | None => Raise IndexError
  end.

(** [l[i] = x] *)
Definition py_set {A} (l : list A) (i : Z) (x : A) : result (list A) :=
  let* k := norm_index l i in Ok (<[k := x]> l).

(** ** LifeEngine: [life_step] and [simulate] *)

Abbreviation matrix := (list (list Z)).

Definition len {A} (l : list A) : Z := Z.of_nat (length l).

Module Life.

(** The closure [neighbors(r, c)] of [life_step], with the captured
    [state], [rows] and [cols] made explicit. *)
Definition neighbors (state : matrix) (rows cols r c : Z) : result Z :=
  for_each (fun dr s =>
    for_each (fun dc s =>
      if (dr =? 0) && (dc =? 0) then Ok s
      else
        let rr := r + dr in
        let cc := c + dc in
        if (0 <=? rr) && (rr <? rows) && ((0 <=? cc) && (cc <? cols)) then
          let* row := py_get state rr in
          let* v := py_get row cc in
          Ok (s + v)
        else Ok s)
      [-1; 0; 1] s)
    [-1; 0; 1] 0.

(** [nxt[r][c] = v] *)
Definition set_cell (nxt : matrix) (r c v : Z) : result matrix :=
  let* row := py_get nxt r in
  let* row' := py_set row c v in
  py_set nxt r row'.

Definition life_step (state : matrix) : result matrix :=
  let rows := len state in
  let* cols :=
    if rows =? 0 then Ok 0
    else let* row0 := py_get state 0 in Ok (len row0) in
  let nxt : matrix := (fun _ => replicate (Z.to_nat cols) 0) <$> range rows in
  for_each (fun r nxt =>
    for_each (fun c nxt =>
      let* n := neighbors state rows cols r c in
      let* row := py_get state r in
      let* cur := py_get row c in
      if cur =? 1 then
        set_cell nxt r c (if (n =? 2) || (n =? 3) then 1 else 0)
      else
        set_cell nxt r c (if n =? 3 then 1 else 0))
      (range cols) nxt)
    (range rows) nxt.

(** [simulate]: the loop state is the pair [(cur, frames)]. *)
Definition simulate (state : matrix) (steps : Z) : result (list matrix) :=
  let* final :=
    for_each (fun _ '(cur, frames) =>
      let* cur' := life_step cur in
      Ok (cur', frames ++ [cur']))
      (range (steps - 1)) (state, [state]) in
  Ok (snd final).

End Life.

(** ** Python strings

    A Python [str] is a [string]; the operations below work on its list of
    characters.  [lower] is the ASCII part of [str.lower]: the only
    characters that the scripts compare after lower-casing are the ASCII
    letters of the literal they are compared with. *)

Definition chars (s : string) : list ascii := String.list_ascii_of_string s.
Definition str (l : list ascii) : string := String.string_of_list_ascii l.

Definition ascii_lower (c : ascii) : ascii :=
  let n := nat_of_ascii c in
  if (65 <=? n)%nat && (n <=? 90)%nat then ascii_of_nat (n + 32) else c.

(** [s.lower()] *)
Definition lower (s : string) : string := str (ascii_lower <$> chars s).

(** [s.endswith(suffix)] *)
Definition endswith (s suffix : string) : bool :=
  bool_decide (chars suffix `suffix_of` chars s).

(** [s.split(sep)] for a one-character separator: the pieces between the
    occurrences of [sep], the current piece being accumulated in [cur]. *)
Fixpoint split_go (sep : ascii) (cur : list ascii) (l : list ascii)
  : list (list ascii) :=
  match l with
  | [] => [cur]
  | c :: l' =>
      if decide (c = sep) then cur :: split_go sep [] l'
      else split_go sep (cur ++ [c]) l'
  end.

Definition split (sep : ascii) (s : string) : list string :=
  str <$> split_go sep [] (chars s).

(** Truthiness of an optional string: [None] and the empty string are
    false. *)
Definition truthy (o : option string) : bool :=
  match o with
  | Some (String _ _) => true
  | _ => false
  end.

(** ** ImageValidator: [validate_svg.main] *)

Module Validate.

(** An [xml.etree.ElementTree] element: its tag (a namespace-qualified
    tag reads [{uri}local]), its attribute dictionary and its children. *)
Unset Elimination Schemes.
Inductive element : Type :=
  Element (tag : string) (attrib : gmap string string) (children : list element).
Set Elimination Schemes.

Definition tag (e : element) : string :=
  match e with Element t _ _ => t end.
Definition attrib (e : element) : gmap string string :=
  match e with Element _ a _ => a end.
Definition children (e : element) : list element :=
  match e with Element _ _ cs => cs end.

(** [root.iter()]: the element itself, then its subtrees in document
    order. *)
Fixpoint iter (e : element) : list element :=
  match e with
  | Element _ _ cs => e :: (cs ≫= iter)
  end.

(** [elem.tag.split('}')[-1]] *)
Definition nsless_tag (e : element) : string :=
  default EmptyString (last (split "}" (tag e))).

Section Main.
(** [ET.parse(path).getroot()], [None] when it raises. *)
Variable ET_parse : string → option element.

Definition main (path : string) : Z :=
  match ET_parse path with
  | None => 2
  | Some root =>
      if endswith (lower (tag root)) "svg" then
        let w := attrib root !! "width" in
        let h := attrib root !! "height" in
        if negb (truthy w) || negb (truthy h) then 3
        else
          let nsless := nsless_tag <$> iter root in
          if bool_decide ("animate" ∈ nsless) then 0 else 5
      else 4
  end.
End Main.

(** [d] is [e] or lies somewhere below it. *)
Inductive within : element → element → Prop :=
  | within_self e : within e e
  | within_child e c d : c ∈ children e → within c d → within e d.

End Validate.

(** ** GridFetcher: [fetch_contributions_matrix]

    The HTTP request and the HTML parser are outside the model: the
    function is embedded from the parsed page ([soup]) on. *)

(** [[f(x) for x in l]] for a body that may raise. *)
Fixpoint map_result {A B} (f : A → result B) (l : list A) : result (list B) :=
  match l with
  | [] => Ok []
  | x :: l' => let* y := f x in let* ys := map_result f l' in Ok (y :: ys)
  end.

Module Fetch.

(** A node of the BeautifulSoup tree: a string, or a tag with its
    attribute dictionary and its contents. *)
Unset Elimination Schemes.
Inductive node : Type :=
  | NavigableString (s : string)
  | Tag (name : string) (attrs : gmap string string) (contents : list node).
Set Elimination Schemes.

(** [Tag.__eq__]: the same name, the same attributes and, recursively,
    the same contents. *)
Fixpoint node_eqb (a b : node) : bool :=
  match a, b with
  | NavigableString s, NavigableString t => bool_decide (s = t)
  | Tag n1 a1 c1, Tag n2 a2 c2 =>
      bool_decide (n1 = n2) && bool_decide (a1 = a2)
      && (fix contents_eqb (l1 l2 : list node) : bool :=
            match l1, l2 with
            | [], [] => true
            | x :: l1', y :: l2' => node_eqb x y && contents_eqb l1' l2'
            | _, _ => false
            end) c1 c2
  | _, _ => false
  end.

(** All nodes below [n], in document order. *)
Fixpoint descendants (n : node) : list node :=
  match n with
  | NavigableString _ => []
  | Tag _ _ cs => cs ≫= (fun c => c :: descendants c)
  end.

Definition named (name : string) (n : node) : bool :=
  match n with
  | Tag nm _ _ => bool_decide (nm = name)
  | NavigableString _ => false
  end.

(** [n.find_all(name)] and [n.find(name)] *)
Definition find_all (name : string) (n : node) : list node :=
  List.filter (named name) (descendants n).

Definition find (name : string) (n : node) : option node :=
  head (find_all name n).

(** [tag.get(key)] *)
Definition get (n : node) (key : string) : option string :=
  match n with
  | Tag _ a _ => a !! key
  | NavigableString _ => None
  end.

Section Decode.
(** [int(float(s))] and [int(s)], [None] when they raise: Python's
    numeral grammar and binary floating point are parameters. *)
Variable int_of_float : string → option Z.
Variable int_of_str : string → option Z.

(** The [except] branch: [len([r for r in rects if r == rect]) - 1]. *)
Definition fallback_row (rects : list node) (rect : node) : Z :=
  len (List.filter (fun r => node_eqb r rect) rects) - 1.

(** The [try] statement.  [int(a / 10)] truncates the float quotient
    toward zero: [Z.quot], exactly so while [a] is below 2^53 in absolute
    value. *)
Definition row_index (rects : list node) (rect : node) : Z :=
  match get rect "y" with
  | Some y =>
      match int_of_float y with
      | Some a => Z.quot a 10
      | None => fallback_row rects rect
      end
  | None => fallback_row rects rect
  end.

(** The body of [for rect in rects]. *)
Definition place_rect (rects : list node) (rect : node) (col : list Z)
  : result (list Z) :=
  let yi := row_index rects rect in
  let text := default (default "0" (get rect "data-level"))
                      (get rect "data-count") in
  let* count :=
    match int_of_str text with
    | Some n => Ok n
    | None => Raise ValueError
    end in
  py_set col yi (if 0 <? count then 1 else 0).

(** The body of [for g in weeks]. *)
Definition add_week (g : node) (columns : list (list Z))
  : result (list (list Z)) :=
  let rects := find_all "rect" g in
  match rects with
  | [] => Ok columns
  | _ =>
      let* col := for_each (place_rect rects) rects (replicate 7 0) in
      Ok (columns ++ [col])
  end.

Definition fetch_contributions_matrix (soup : node) : result matrix :=
  match find "svg" soup with
  | None => Raise (RuntimeError "Could not find contributions SVG in response")
  | Some svg =>
      let weeks := find_all "g" svg in
      let rows := 7 in
      let* columns := for_each add_week weeks [] in
      match columns with
      | [] => Raise (RuntimeError "No contribution columns parsed")
      | _ =>
          let cols := len columns in
          map_result (fun r =>
            map_result (fun c =>
              let* column := py_get columns c in
              if r <? len column then py_get column r else Ok 0)
              (range cols))
            (range rows)
      end
  end.
End Decode.

(** Plain decimal numerals, an optional minus sign first: on these
    [int(s)] and [int(float(s))] agree with [decimal] (up to 15 digits). *)
Definition digit (c : ascii) : option Z :=
  let n := nat_of_ascii c in
  if (48 <=? n)%nat && (n <=? 57)%nat then Some (Z.of_nat n - 48) else None.

Fixpoint digits (acc : Z) (l : list ascii) : option Z :=
  match l with
  | [] => Some acc
  | c :: l' =>
      match digit c with
      | Some d => digits (10 * acc + d) l'
      | None => None
      end
  end.

Definition decimal (s : string) : option Z :=
  match chars s with
  | [] => None
  | c :: l =>
      if decide (c = "-"%char) then
        match l with [] => None | _ => Z.opp <$> digits 0 l end
      else digits 0 (c :: l)
  end.

(** A page with one week column holding one day cell. *)
Definition one_cell_page (y count : string) : node :=
  Tag "[document]" ∅
    [Tag "svg" ∅
       [Tag "g" ∅
          [Tag "rect" (<["y" := y]> {["data-count" := count]}) []]]].

(** A week column of two day cells without a vertical offset. *)
Definition day_a : node := Tag "rect" {["data-count" := "1"]} [].
Definition day_b : node := Tag "rect" {["data-count" := "0"]} [].
Definition two_cell_page : node :=
  Tag "[document]" ∅ [Tag "svg" ∅ [Tag "g" ∅ [day_a; day_b]]].

End Fetch.

(** ** AnimationRenderer: [render_animated_svg]

    Python floats are read as the rationals they approximate: the frame
    duration is a [Q], [i / len(frames)] and [frame_duration * len(frames)]
    are exact.  The decimal formatting of a float ([:.3f], [:.6f]) and the
    file system are parameters of the model. *)

(** The double-quote character and a double-quoted text. *)
Definition dq : string := String (ascii_of_nat 34) EmptyString.
Definition quoted (s : string) : string := dq +:+ s +:+ dq.
Definition newline : string := String (ascii_of_nat 10) EmptyString.

(** [str(n)] for an integer. *)
Definition str_int (n : Z) : string := pretty n.

(** [sep.join(l)] *)
Definition join (sep : string) (l : list string) : string := String.concat sep l.

(** [s.rstrip(c)] for a single character [c]. *)
Fixpoint lstrip_chars (c : ascii) (l : list ascii) : list ascii :=
  match l with
  | [] => []
  | x :: l' => if decide (x = c) then lstrip_chars c l' else l
  end.

Definition rstrip (c : ascii) (s : string) : string :=
  str (reverse (lstrip_chars c (reverse (chars s)))).

(** [enumerate(l)] *)
Definition enumerate {A} (l : list A) : list (Z * A) := zip (range (len l)) l.

Module Render.

Section Render.
(** [f"{x:.3f}"] and [f"{x:.6f}"] *)
Variable fmt_3f : Q → string.
Variable fmt_6f : Q → string.

(** The file system: its states, [os.path.dirname], [os.makedirs(d,
    exist_ok=True)] and writing a text file in one [write] call. *)
Variable FS : Type.
Variable dirname : string → string.
Variable makedirs : string → FS → result unit * FS.
Variable write_text : string → string → FS → result unit * FS.

Section Document.
Variables (cell gap : Z) (alive_color dead_color : string) (frame_duration : Q).

(** The closure [rect(x, y, fill)]. *)
Definition rect (x y : Z) (fill : string) : string :=
  "<rect x=" +:+ quoted (str_int x) +:+ " y=" +:+ quoted (str_int y)
  +:+ " width=" +:+ quoted (str_int cell)
  +:+ " height=" +:+ quoted (str_int cell)
  +:+ " rx=" +:+ quoted "2" +:+ " ry=" +:+ quoted "2"
  +:+ " fill=" +:+ quoted fill +:+ "/>".

Definition xml_declaration : string :=
  "<?xml version=" +:+ quoted "1.0" +:+ " encoding=" +:+ quoted "UTF-8" +:+ "?>".

Definition svg_open (width height : Z) : string :=
  "<svg xmlns=" +:+ quoted "http://www.w3.org/2000/svg"
  +:+ " viewBox="
  +:+ quoted ("0 0 " +:+ str_int width +:+ " " +:+ str_int height)
  +:+ " width=" +:+ quoted (str_int width)
  +:+ " height=" +:+ quoted (str_int height) +:+ ">".

(** The background: one dead-coloured cell per grid position. *)
Definition background (rows cols : Z) : string :=
  let bg :=
    r ← range rows; c ← range cols;
    [rect (c * (cell + gap)) (r * (cell + gap)) dead_color] in
  "<g id=" +:+ quoted "bg" +:+ ">" +:+ join EmptyString bg +:+ "</g>".

(** [key_times] and its rendering. *)
Definition key_times (n : Z) : list Q :=
  (fun i => (inject_Z i / inject_Z n)%Q) <$> range (n + 1).

Definition key_time_str (t : Q) : string :=
  if negb (Qeq_bool t 0%Q || Qeq_bool t 1%Q) then
    rstrip "." (rstrip "0" (fmt_6f t))
  else if Qeq_bool t 0%Q then "0" else "1".

Definition key_times_str (n : Z) : string :=
  join ";" (key_time_str <$> key_times n).

(** [values] of the group of frame [k] among [n] frames. *)
Definition values (n k : Z) : list string :=
  (fun i => if i =? k then "1" else "0") <$> range (n + 1).

(** The rectangles of the live cells of one frame. *)
Definition alive_cells (rows cols : Z) (frame : matrix) : result (list string) :=
  for_each (fun r g_cells =>
    for_each (fun c g_cells =>
      let* row := py_get frame r in
      let* v := py_get row c in
      if v =? 1 then
        Ok (g_cells ++ [rect (c * (cell + gap)) (r * (cell + gap)) alive_color])
      else Ok g_cells)
      (range cols) g_cells)
    (range rows) [].

(** The text appended to [parts] for frame [k]. *)
Definition frame_group (n k : Z) (g_cells : list string) : string :=
  "<g id=" +:+ quoted ("f" +:+ str_int k)
  +:+ " opacity=" +:+ quoted (str_int (if k =? 0 then 1 else 0)) +:+ ">"
  +:+ join EmptyString g_cells
  +:+ "<animate attributeName=" +:+ quoted "opacity"
  +:+ " dur=" +:+ quoted (fmt_3f (frame_duration * inject_Z n)%Q +:+ "s")
  +:+ " repeatCount=" +:+ quoted "indefinite"
  +:+ " calcMode=" +:+ quoted "discrete"
  +:+ " keyTimes=" +:+ quoted (key_times_str n)
  +:+ " values=" +:+ quoted (join ";" (values n k)) +:+ "/></g>".

(** The list [parts] at the end of the function. *)
Definition svg_parts (frames : list matrix) : result (list string) :=
  match frames with
  | [] => Raise ValueError
  | frame0 :: _ =>
      let rows := len frame0 in
      let* cols :=
        if rows =? 0 then Ok 0
        else let* row0 := py_get frame0 0 in Ok (len row0) in
      let width := cols * (cell + gap) - gap in
      let height := rows * (cell + gap) - gap in
      let parts := [xml_declaration; svg_open width height;
                    background rows cols] in
      let* parts :=
        for_each (fun '(k, frame) parts =>
          let* g_cells := alive_cells rows cols frame in
          Ok (parts ++ [frame_group (len frames) k g_cells]))
          (enumerate frames) parts in
      Ok (parts ++ ["</svg>"])
  end.

(** The text handed to [f.write]. *)
Definition document (frames : list matrix) : result string :=
  let* parts := svg_parts frames in Ok (join newline parts).

Definition render_animated_svg (frames : list matrix) (out_path : string)
    (fs : FS) : result unit * FS :=
  match document frames with
  | Raise e => (Raise e, fs)
  | Ok text =>
      match makedirs (dirname out_path) fs with
      | (Raise e, fs') => (Raise e, fs')
      | (Ok _, fs') => write_text out_path text fs'
      end
  end.
End Document.
End Render.
End Render.

(** ** [ET.parse]: a recognizer for the XML that the renderer writes

    [xml.etree.ElementTree] is the standard library's, not this
    repository's.  Its meeting point with the two scripts is modelled by a
    character automaton for a fragment of XML 1.0: the declaration that
    [render_animated_svg] writes, elements with double-quoted attributes
    and no prefixes, white space as the only character data.  On a text of
    the fragment it builds the tree ElementTree builds, the default
    namespace of [xmlns] moved into the tags; it tells a text that is not
    well formed ([Malformed]) from one that is outside the fragment
    ([Unsupported]). *)

Module Xml.
Import Validate.

Inductive outcome : Type :=
  | Parsed (root : element)
  | Malformed
  | Unsupported.

Inductive char_class : Type :=
  | CSpace        (* the space character *)
  | CBlank        (* tab, line feed, carriage return *)
  | CLt | CGt | CSlash | CEq | CQuote | CApos | CAmp | CColon | CBang | CQuery
  | CNameStart    (* a letter or the underscore *)
  | CNameRest     (* a digit, the hyphen or the full stop *)
  | CText         (* any other printable ASCII character *)
  | COther.       (* control characters and bytes above 126 *)

Definition classify (c : ascii) : char_class :=
  let n := nat_of_ascii c in
  if (n =? 32)%nat then CSpace
  else if (n =? 9)%nat || (n =? 10)%nat || (n =? 13)%nat then CBlank
  else if (n =? 60)%nat then CLt
  else if (n =? 62)%nat then CGt
  else if (n =? 47)%nat then CSlash
  else if (n =? 61)%nat then CEq
  else if (n =? 34)%nat then CQuote
  else if (n =? 39)%nat then CApos
  else if (n =? 38)%nat then CAmp
  else if (n =? 58)%nat then CColon
  else if (n =? 33)%nat then CBang
  else if (n =? 63)%nat then CQuery
  else if (65 <=? n)%nat && (n <=? 90)%nat
          || (97 <=? n)%nat && (n <=? 122)%nat || (n =? 95)%nat then CNameStart
  else if (48 <=? n)%nat && (n <=? 57)%nat
          || (n =? 45)%nat || (n =? 46)%nat then CNameRest
  else if (32 <? n)%nat && (n <=? 126)%nat then CText
  else COther.

Definition name_char (c : ascii) : bool :=
  match classify c with
  | CNameStart | CNameRest => true
  | _ => false
  end.

Definition name_start (c : ascii) : bool :=
  match classify c with
  | CNameStart => true
  | _ => false
  end.

(** A name without prefix. *)
Definition valid_name (s : string) : bool :=
  match chars s with
  | [] => false
  | c :: l => name_start c && forallb name_char l
  end.

(** A character that stands for itself in a double-quoted attribute
    value. *)
Definition value_char (c : ascii) : bool :=
  match classify c with
  | CQuote | CLt | CAmp | CBlank | COther => false
  | _ => true
  end.

Definition attr_safe (s : string) : bool := forallb value_char (chars s).

(** An element whose start tag has been read: its name, its attributes
    and the children read so far, the latest first. *)
Definition open_element : Type := string * gmap string string * list element.

Inductive mode : Type :=
  | Content
  | Epilog (root : element)
  | TagStart
  | OpenName (acc : list ascii)
  | AfterItem (name : string) (attrs : gmap string string)
  | InTag (name : string) (attrs : gmap string string)
  | AttrName (name : string) (attrs : gmap string string) (acc : list ascii)
  | AttrQuote (name : string) (attrs : gmap string string) (key : string)
  | AttrValue (name : string) (attrs : gmap string string) (key : string)
              (acc : list ascii)
  | SelfClose (name : string) (attrs : gmap string string)
  | CloseStart
  | CloseName (acc : list ascii)
  | CloseWs (name : string).

Inductive step_result : Type :=
  | Next (m : mode) (st : list open_element)
  | Stop (o : outcome).

(** A finished element joins its parent, or is the root. *)
Definition add_child (e : element) (st : list open_element) : step_result :=
  match st with
  | [] => Next (Epilog e) []
  | (n, a, kids) :: st' => Next Content ((n, a, e :: kids) :: st')
  end.

(** An end tag closes the innermost open element, which must bear its
    name. *)
Definition close (name : string) (st : list open_element) : step_result :=
  match st with
  | [] => Stop Malformed
  | (n, a, kids) :: st' =>
      if decide (n = name) then add_child (Element n a (reverse kids)) st'
      else Stop Malformed
  end.

(** After a tag name or an attribute: white space, [/] or [>]. *)
Definition after_item (name : string) (attrs : gmap string string)
    (st : list open_element) (c : ascii) : step_result :=
  match classify c with
  | CSpace | CBlank => Next (InTag name attrs) st
  | CSlash => Next (SelfClose name attrs) st
  | CGt => Next Content ((name, attrs, []) :: st)
  | _ => Stop Malformed
  end.

Definition step (m : mode) (st : list open_element) (c : ascii) : step_result :=
  match m with
  | Content =>
      match classify c with
      | CSpace | CBlank => Next Content st
      | CLt => Next TagStart st
      | _ => Stop (match st with [] => Malformed | _ => Unsupported end)
      end
  | Epilog root =>
      match classify c with
      | CSpace | CBlank => Next (Epilog root) st
      | CLt => Stop Unsupported
      | _ => Stop Malformed
      end
  | TagStart =>
      match classify c with
      | CNameStart => Next (OpenName [c]) st
      | CSlash => match st with [] => Stop Malformed | _ => Next CloseStart st end
      | CBang | CQuery | CColon => Stop Unsupported
      | _ => Stop Malformed
      end
  | OpenName acc =>
      match classify c with
      | CNameStart | CNameRest => Next (OpenName (acc ++ [c])) st
      | CColon => Stop Unsupported
      | _ => after_item (str acc) ∅ st c
      end
  | AfterItem name attrs => after_item name attrs st c
  | InTag name attrs =>
      match classify c with
      | CNameStart => Next (AttrName name attrs [c]) st
      | CColon => Stop Unsupported
      | _ => after_item name attrs st c
      end
  | AttrName name attrs acc =>
      match classify c with
      | CNameStart | CNameRest => Next (AttrName name attrs (acc ++ [c])) st
      | CEq =>
          match attrs !! str acc with
          | None => Next (AttrQuote name attrs (str acc)) st
          | Some _ => Stop Malformed
          end
      | CColon | CSpace | CBlank => Stop Unsupported
      | _ => Stop Malformed
      end
  | AttrQuote name attrs key =>
      match classify c with
      | CQuote => Next (AttrValue name attrs key []) st
      | CApos | CSpace | CBlank => Stop Unsupported
      | _ => Stop Malformed
      end
  | AttrValue name attrs key acc =>
      match classify c with
      | CQuote => Next (AfterItem name (<[key := str acc]> attrs)) st
      | CLt => Stop Malformed
      | CAmp | CBlank | COther => Stop Unsupported
      | _ => Next (AttrValue name attrs key (acc ++ [c])) st
      end
  | SelfClose name attrs =>
      match classify c with
      | CGt => add_child (Element name attrs []) st
      | _ => Stop Malformed
      end
  | CloseStart =>
      match classify c with
      | CNameStart => Next (CloseName [c]) st
      | CColon => Stop Unsupported
      | _ => Stop Malformed
      end
  | CloseName acc =>
      match classify c with
      | CNameStart | CNameRest => Next (CloseName (acc ++ [c])) st
      | CGt => close (str acc) st
      | CSpace | CBlank => Next (CloseWs (str acc)) st
      | CColon => Stop Unsupported
      | _ => Stop Malformed
      end
  | CloseWs name =>
      match classify c with
      | CSpace | CBlank => Next (CloseWs name) st
      | CGt => close name st
      | _ => Stop Malformed
      end
  end.

Fixpoint steps (m : mode) (st : list open_element) (l : list ascii)
  : step_result :=
  match l with
  | [] => Next m st
  | c :: l' =>
      match step m st c with
      | Next m' st' => steps m' st' l'
      | Stop o => Stop o
      end
  end.

(** At the end of the text the root must have been closed. *)
Definition run (l : list ascii) : outcome :=
  match steps Content [] l with
  | Next (Epilog root) _ => Parsed root
  | Next _ _ => Malformed
  | Stop o => o
  end.

(** ElementTree's universal names: the default namespace in force is
    written into the tag, the [xmlns] attribute is not kept. *)
Fixpoint qualify (ns : option string) (e : element) : element :=
  match e with
  | Element t a cs =>
      let ns' :=
        match a !! "xmlns" with
        | Some EmptyString => None
        | Some uri => Some uri
        | None => ns
        end in
      Element
        (match ns' with Some uri => "{" +:+ uri +:+ "}" +:+ t | None => t end)
        (delete "xmlns" a)
        (qualify ns' <$> cs)
  end.

(** The one declaration of the fragment. *)
Definition declaration : string :=
  "<?xml version=" +:+ quoted "1.0" +:+ " encoding=" +:+ quoted "UTF-8" +:+ "?>".

Fixpoint strip_prefix (p l : list ascii) : option (list ascii) :=
  match p, l with
  | [], _ => Some l
  | x :: p', y :: l' => if decide (x = y) then strip_prefix p' l' else None
  | _ :: _, [] => None
  end.

Definition parse (text : string) : outcome :=
  let l := chars text in
  let body :=
    match strip_prefix (chars "<?") l with
    | Some _ => strip_prefix (chars declaration) l
    | None => Some l
    end in
  match body with
  | None => Unsupported
  | Some l' =>
      match run l' with
      | Parsed root => Parsed (qualify None root)
      | o => o
      end
  end.

(** [ET.parse(path).getroot()] over the readable files [read]: [None]
    when the file cannot be read or parsed. *)
Definition ET_parse (read : string → option string) (path : string)
  : option element :=
  match read path with
  | None => None
  | Some text =>
      match parse text with
      | Parsed root => Some root
      | _ => None
      end
  end.

End Xml.

(** ** The two scripts run from the command line *)

Module Cli.

(** The options of [generate_svg.py] as [argparse] hands them over. *)
Record args : Type := {
  username : string;
  steps : Z;
  frame_duration : Q;
  cell : Z;
  gap : Z;
  alive_color : string;
  dead_color : string;
  out : string
}.

Section Generate.
Variables (int_of_float int_of_str : string → option Z).
Variables (fmt_3f fmt_6f : Q → string).
Variable FS : Type.
Variable dirname : string → string.
Variable makedirs : string → FS → result unit * FS.
Variable write_text : string → string → FS → result unit * FS.
(** The first lines of [fetch_contributions_matrix]: [requests.get],
    [raise_for_status] and the HTML parser give the page of a user, or
    raise. *)
Variable get_soup : string → result Fetch.node.

(** [fetch_contributions_matrix(username)] *)
Definition fetch (name : string) : result matrix :=
  let* soup := get_soup name in
  Fetch.fetch_contributions_matrix int_of_float int_of_str soup.

(** [generate_svg.main], after the options are parsed. *)
Definition generate_main (a : args) (fs : FS) : result unit * FS :=
  match fetch (username a) with
  | Raise e => (Raise e, fs)
  | Ok grid =>
      match Life.simulate grid (steps a) with
      | Raise e => (Raise e, fs)
      | Ok frames =>
          Render.render_animated_svg fmt_3f fmt_6f FS dirname makedirs write_text
            (cell a) (gap a) (alive_color a) (dead_color a) (frame_duration a)
            frames (out a) fs
      end
  end.
End Generate.

(** [validate_svg.py] run as a script on [sys.argv]: the usage error 1
    unless there is exactly one argument. *)
Definition validate_script (ET_parse : string → option Validate.element)
    (argv : list string) : Z :=
  if negb (len argv =? 2) then 1
  else
    match argv !! 1%nat with
    | Some path => Validate.main ET_parse path
    | None => 1
    end.

End Cli.

(** ** Vocabulary of the LifeEngine statements *)

(** Every row is as long as the first one. *)
Definition rectangular (m : matrix) : Prop :=
  Forall (fun row => length row = length (default [] (head m))) m.

Definition binary (m : matrix) : Prop :=
  Forall (Forall (fun v => v = 0 ∨ v = 1)) m.

(** The cell at [(r, c)], reading every position outside the matrix as 0. *)
Definition cell_at (m : matrix) (r c : Z) : Z :=
  if (0 <=? r) && (0 <=? c) then
    default 0 (default [] (m !! Z.to_nat r) !! Z.to_nat c)
  else 0.

(** The Moore neighbourhood count of the bounded universe. *)
Definition moore_count (m : matrix) (r c : Z) : Z :=
  cell_at m (r - 1) (c - 1) + cell_at m (r - 1) c + cell_at m (r - 1) (c + 1)
  + cell_at m r (c - 1) + cell_at m r (c + 1)
  + cell_at m (r + 1) (c - 1) + cell_at m (r + 1) c + cell_at m (r + 1) (c + 1).

(** [life_step] applied [i] times. *)
Fixpoint step_iter (i : nat) (m : matrix) : result matrix :=
  match i with
  | O => Ok m
  | S i' => let* m' := step_iter i' m in Life.life_step m'
  end.

(** A matrix of [rows] rows that all have [cols] cells. *)
Definition shaped (m : matrix) (rows cols : nat) : Prop :=
  length m = rows ∧ Forall (fun row => length row = cols) m.

(** The transition rule B3/S23 on a cell value and a neighbour count. *)
Definition conway (cur n : Z) : Z :=
  if cur =? 1 then (if (n =? 2) || (n =? 3) then 1 else 0)
  else (if n =? 3 then 1 else 0).

(** ** Vocabulary of the AnimationRenderer statements *)

(** The text of a live cell: [rect] at a grid position in the alive
    colour. *)
Definition alive_rect (cell gap : Z) (alive_color : string) (s : string) : Prop :=
  ∃ r c, s = Render.rect cell (c * (cell + gap)) (r * (cell + gap)) alive_color.

(** The texts of the live cells of a frame, row by row. *)
Definition live_rects (cell gap : Z) (alive_color : string) (rows cols : Z)
    (frame : matrix) : list string :=
  r ← range rows; c ← range cols;
  if cell_at frame r c =? 1
  then [Render.rect cell (c * (cell + gap)) (r * (cell + gap)) alive_color]
  else [].

(** ** Vocabulary of the round-trip statements *)

(** The text of one attribute and of one tag as the renderer spells them:
    a space, the name, [=], the double-quoted value; [closing] is [>] or
    [/>]. *)
Definition attr_chars (kv : string * string) : list ascii :=
  chars " " ++ chars kv.1 ++ chars "=" ++ chars dq ++ chars kv.2 ++ chars dq.

Definition tag_chars (name : string) (attrs : list (string * string))
    (closing : string) : list ascii :=
  chars "<" ++ chars name ++ (attrs ≫= attr_chars) ++ chars closing.

(** The attribute dictionary of a start tag, filled from left to right. *)
Definition attrs_from (a : gmap string string) (attrs : list (string * string))
  : gmap string string :=
  foldl (fun a kv => <[kv.1 := kv.2]> a) a attrs.

(** Names are valid and new, values need no escaping. *)
Fixpoint attrs_fresh (a : gmap string string) (attrs : list (string * string))
  : Prop :=
  match attrs with
  | [] => True
  | kv :: l =>
      Xml.valid_name kv.1 = true ∧ Xml.attr_safe kv.2 = true ∧ a !! kv.1 = None
      ∧ attrs_fresh (<[kv.1 := kv.2]> a) l
  end.

Definition push (e : Validate.element) (f : Xml.open_element) : Xml.open_element :=
  (f.1.1, f.1.2, e :: f.2).

(** Read inside an open element, the text [l] adds the child [e]. *)
Definition emits (l : list ascii) (e : Validate.element) : Prop :=
  ∀ f st, Xml.steps Xml.Content (f :: st) l = Xml.Next Xml.Content (push e f :: st).

(** The attribute lists of the renderer's four kinds of tags. *)
Definition rect_attrs (cell x y : Z) (fill : string) : list (string * string) :=
  [("x", str_int x); ("y", str_int y); ("width", str_int cell);
   ("height", str_int cell); ("rx", "2"); ("ry", "2"); ("fill", fill)].

Definition svg_attrs (width height : Z) : list (string * string) :=
  [("xmlns", "http://www.w3.org/2000/svg");
   ("viewBox", "0 0 " +:+ str_int width +:+ " " +:+ str_int height);
   ("width", str_int width); ("height", str_int height)].

Definition group_attrs (k : Z) : list (string * string) :=
  [("id", "f" +:+ str_int k); ("opacity", str_int (if k =? 0 then 1 else 0))].

Definition animate_attrs (fmt_3f fmt_6f : Q → string) (frame_duration : Q)
    (n k : Z) : list (string * string) :=
  [("attributeName", "opacity");
   ("dur", fmt_3f (frame_duration * inject_Z n)%Q +:+ "s");
   ("repeatCount", "indefinite"); ("calcMode", "discrete");
   ("keyTimes", Render.key_times_str fmt_6f n);
   ("values", join ";" (Render.values n k))].

(** A frame group as read back: a [g] element whose last child is an
    [animate] element, neither declaring a namespace of its own. *)
Definition animated_group (e : Validate.element) : Prop :=
  ∃ ga es aa,
    e = Validate.Element "g" ga (es ++ [Validate.Element "animate" aa []])
    ∧ ga !! "xmlns" = None ∧ aa !! "xmlns" = None.

Definition svg_namespace : string := "http://www.w3.org/2000/svg".

(** ** Vocabulary of the GridFetcher statements *)

(** The count text of a day cell: [data-count], else [data-level], else
    ["0"]. *)
Definition day_text (rect : Fetch.node) : string :=
  default (default "0" (Fetch.get rect "data-level")) (Fetch.get rect "data-count").

(** The cell value of a day whose count text is the numeral [n]. *)
Definition day_value (int_of_str : string → option Z) (rect : Fetch.node) : Z :=
  match int_of_str (day_text rect) with
  | Some n => if 0 <? n then 1 else 0
  | None => 0
  end.

(** A group that holds at least one day cell. *)
Definition has_days (g : Fetch.node) : bool :=
  match Fetch.find_all "rect" g with
  | [] => false
  | _ => true
  end.

(** A week column keeps its 7 cells, each 0 or 1. *)
Definition good_column (col : list Z) : Prop :=
  length col = 7%nat ∧ Forall (fun v => v = 0 ∨ v = 1) col.

(** The column that the day cells [rects] of one group fill, each cell
    written at its row index, later cells over earlier ones. *)
Definition column_of (int_of_float int_of_str : string → option Z)
    (rects : list Fetch.node) : list Z :=
  foldl (fun col rect =>
           <[Z.to_nat (Fetch.row_index int_of_float rects rect)
             := day_value int_of_str rect]> col)
        (replicate 7 0) rects.

(** A day cell that can be placed: its row index is one of the 7 rows
    and its count text is a numeral. *)
Definition placeable (int_of_float int_of_str : string → option Z)
    (rects : list Fetch.node) (rect : Fetch.node) : Prop :=
  0 <= Fetch.row_index int_of_float rects rect < 7
  ∧ is_Some (int_of_str (day_text rect)).

(** The row-major 7-row grid of a list of week columns. *)
Definition transposed (columns : list (list Z)) : matrix :=
  (fun r => (fun c => cell_at columns c r) <$> range (len columns)) <$> range 7.

(* ================================================================== *)
(** * Theorems *)

(** ** The error monad and Python indexing *)

Section Monad.
Context {A S : Type}.

Lemma for_each_app (body : A → S → result S) l1 l2 s :
  for_each body (l1 ++ l2) s
  = let* s' := for_each body l1 s in for_each body l2 s'.
Proof.
  revert s. induction l1 as [|x l1 IH]; intros s; simpl; [done|].
  destruct (body x s); simpl; auto.
Qed.

Lemma for_each_ext (f g : A → S → result S) (P : S → Prop) l s :
  P s →
  (∀ x s, x ∈ l → P s → f x s = g x s) →
  (∀ x s s', x ∈ l → P s → g x s = Ok s' → P s') →
  for_each f l s = for_each g l s.
Proof.
  revert s. induction l as [|x l IH]; intros s Hs Hfg Hg; simpl; [done|].
  rewrite (Hfg x s) by (auto; left).
  destruct (g x s) as [s'|e] eqn:E; simpl; [|done].
  apply IH.
  - eapply Hg; eauto. left.
  - intros; apply Hfg; auto. by right.
  - intros; eapply Hg; eauto. by right.
Qed.
End Monad.

Lemma norm_index_nonneg {A} (l : list A) (i : Z) :
  0 <= i < len l → norm_index l i = Ok (Z.to_nat i).
Proof.
  unfold norm_index, len. intros [H1 H2].
  destruct (Z.leb_spec 0 i); [|lia]. destruct (Z.ltb_spec i (Z.of_nat (length l))); [|lia].
  done.
Qed.

Lemma py_get_lookup {A} (l : list A) (i : Z) x :
  0 <= i → l !! Z.to_nat i = Some x → py_get l i = Ok x.
Proof.
  intros Hi Hx. unfold py_get. rewrite norm_index_nonneg; simpl.
  - by rewrite Hx.
  - apply lookup_lt_Some in Hx. unfold len. lia.
Qed.

Lemma py_set_insert {A} (l : list A) (i : Z) x :
  0 <= i < len l → py_set l i x = Ok (<[Z.to_nat i := x]> l).
Proof. intros Hi. unfold py_set. by rewrite norm_index_nonneg. Qed.

(** ** LifeEngine *)

Section LifeStep.
Import Life.

Lemma rectangular_shaped m :
  rectangular m → shaped m (length m) (length (default [] (head m))).
Proof. by split. Qed.

Lemma shaped_rectangular m rows cols : shaped m rows cols → rectangular m.
Proof.
  intros [_ H]. unfold rectangular. destruct m as [|row0 m]; [constructor|].
  simpl. inversion H as [|? ? H0 _]; subst.
  eapply Forall_impl; [exact H|]. simpl. intros; congruence.
Qed.

Lemma cell_at_inside m r c :
  0 <= r → 0 <= c →
  cell_at m r c = default 0 (default [] (m !! Z.to_nat r) !! Z.to_nat c).
Proof.
  intros Hr Hc. unfold cell_at.
  destruct (Z.leb_spec 0 r); [|lia]. by destruct (Z.leb_spec 0 c); [|lia].
Qed.

Lemma shaped_lookup m rows cols r c :
  shaped m rows cols → 0 <= r < Z.of_nat rows → 0 <= c < Z.of_nat cols →
  ∃ row v, m !! Z.to_nat r = Some row ∧ row !! Z.to_nat c = Some v
           ∧ length row = cols ∧ cell_at m r c = v.
Proof.
  intros [Hlen Hrows] Hr Hc.
  destruct (lookup_lt_is_Some_2 m (Z.to_nat r)) as [row Hrow]; [lia|].
  assert (length row = cols) as Hl.
  { rewrite Forall_lookup in Hrows. eapply Hrows; eauto. }
  destruct (lookup_lt_is_Some_2 row (Z.to_nat c)) as [v Hv]; [lia|].
  exists row, v. repeat split; auto.
  rewrite cell_at_inside by lia. rewrite Hrow.
  change (default [] (Some row)) with row. by rewrite Hv.
Qed.

Lemma shaped_outside m rows cols r c :
  shaped m rows cols →
  ¬ (0 <= r < Z.of_nat rows ∧ 0 <= c < Z.of_nat cols) →
  cell_at m r c = 0.
Proof.
  intros [Hlen Hrows] Hout.
  destruct (decide (0 <= r ∧ 0 <= c)) as [[? ?]|Hneg].
  - rewrite cell_at_inside by lia.
    destruct (m !! Z.to_nat r) as [row|] eqn:Hrow; [|done].
    assert (length row = cols) as Hl.
    { rewrite Forall_lookup in Hrows. eapply Hrows; eauto. }
    apply lookup_lt_Some in Hrow.
    change (default [] (Some row)) with row.
    rewrite lookup_ge_None_2; [done|]. lia.
  - unfold cell_at.
    destruct (Z.leb_spec 0 r); [|done]. destruct (Z.leb_spec 0 c); [|done]. lia.
Qed.

(** One guarded addition of the neighbour loop reads [cell_at]. *)
Lemma neighbor_term m rows cols rr cc s :
  shaped m rows cols →
  (if (0 <=? rr) && (rr <? Z.of_nat rows) && ((0 <=? cc) && (cc <? Z.of_nat cols))
   then let* row := py_get m rr in let* v := py_get row cc in Ok (s + v)
   else Ok s)
  = Ok (s + cell_at m rr cc).
Proof.
  intros Hm.
  destruct (Z.leb_spec 0 rr), (Z.ltb_spec rr (Z.of_nat rows)),
           (Z.leb_spec 0 cc), (Z.ltb_spec cc (Z.of_nat cols)); simpl;
    try (rewrite (shaped_outside m rows cols) by (auto; lia); f_equal; lia).
  destruct (shaped_lookup m rows cols rr cc) as (row & v & Hrow & Hv & _ & Hcell);
    [done|lia|lia|].
  rewrite (py_get_lookup m rr row) by (auto; lia). simpl.
  rewrite (py_get_lookup row cc v) by (auto; lia). simpl.
  by rewrite Hcell.
Qed.

Lemma neighbors_moore m rows cols r c :
  shaped m rows cols →
  neighbors m (Z.of_nat rows) (Z.of_nat cols) r c = Ok (moore_count m r c).
Proof.
  intros Hm. unfold neighbors, moore_count. cbn [for_each].
  change (0 =? 0) with true. change (-1 =? 0) with false.
  change (1 =? 0) with false. cbn [andb bind].
  repeat (rewrite (neighbor_term m rows cols) by done; cbn [bind]).
  f_equal. replace (r + -1) with (r - 1) by lia.
  replace (c + -1) with (c - 1) by lia.
  replace (r + 0) with r by lia. replace (c + 0) with c by lia. lia.
Qed.
End LifeStep.

Section LifeLoops.
Import Life.

Lemma set_cell_shaped nxt rows cols r c v :
  shaped nxt rows cols → 0 <= r < Z.of_nat rows → 0 <= c < Z.of_nat cols →
  ∃ nxt', set_cell nxt r c v = Ok nxt' ∧ shaped nxt' rows cols
    ∧ ∀ r' c', cell_at nxt' r' c'
               = if (r' =? r) && (c' =? c) then v else cell_at nxt r' c'.
Proof.
  intros Hs Hr Hc.
  destruct (shaped_lookup nxt rows cols r c Hs Hr Hc)
    as (row & v0 & Hrow & Hv0 & Hl & _).
  destruct Hs as [Hlen Hrows].
  exists (<[Z.to_nat r := <[Z.to_nat c := v]> row]> nxt).
  split; [|split; [split|]].
  - unfold set_cell. rewrite (py_get_lookup nxt r row) by (auto; lia).
    cbn [bind]. rewrite py_set_insert by (unfold len; lia). cbn [bind].
    rewrite py_set_insert by (unfold len; lia). done.
  - by rewrite length_insert.
  - apply Forall_insert; [done|]. by rewrite length_insert.
  - intros r' c'.
    destruct (decide (0 <= r' ∧ 0 <= c')) as [[Hr' Hc']|Hneg].
    + rewrite !cell_at_inside by lia.
      destruct (Z.eqb_spec r' r) as [->|Hne]; cbn [andb].
      * rewrite list_lookup_insert_eq by lia.
        change (default [] (Some ?x)) with x. rewrite Hrow.
        change (default [] (Some ?x)) with x.
        destruct (Z.eqb_spec c' c) as [->|Hne].
        -- by rewrite list_lookup_insert_eq by lia.
        -- by rewrite list_lookup_insert_ne by lia.
      * by rewrite list_lookup_insert_ne by lia.
    + unfold cell_at.
      destruct (Z.leb_spec 0 r'), (Z.leb_spec 0 c'); cbn [andb];
        try lia; by destruct ((r' =? r) && (c' =? c)) eqn:E; [lia|].
Qed.

(** The inner loop writes row [r] left to right. *)
Lemma fill_cols (g : Z → Z) rows cols r (k : nat) nxt :
  shaped nxt rows cols → 0 <= r < Z.of_nat rows → (k ≤ cols)%nat →
  ∃ nxt',
    for_each (fun c nxt => set_cell nxt r c (g c)) (range (Z.of_nat k)) nxt
    = Ok nxt'
    ∧ shaped nxt' rows cols
    ∧ ∀ r' c', cell_at nxt' r' c'
               = if (r' =? r) && ((0 <=? c') && (c' <? Z.of_nat k))
                 then g c' else cell_at nxt r' c'.
Proof.
  intros Hs Hr. induction k as [|k IH]; intros Hk.
  - exists nxt. split; [done|]. split; [done|]. intros r' c'.
    destruct (r' =? r), (Z.leb_spec 0 c'), (Z.ltb_spec c' (Z.of_nat 0));
      cbn [andb]; auto; lia.
  - destruct IH as (nxt1 & Hrun & Hs1 & Hcells); [lia|].
    destruct (set_cell_shaped nxt1 rows cols r (Z.of_nat k) (g (Z.of_nat k)))
      as (nxt2 & Hset & Hs2 & Hcells2); [done|lia|lia|].
    exists nxt2. split; [|split; [done|]].
    + unfold range. rewrite seqZ_S, for_each_app. fold (range (Z.of_nat k)).
      rewrite Hrun. cbn [bind for_each]. rewrite Z.add_0_l, Hset. done.
    + intros r' c'. rewrite Hcells2, Hcells.
      destruct (Z.eqb_spec r' r), (Z.eqb_spec c' (Z.of_nat k)),
        (Z.leb_spec 0 c'), (Z.ltb_spec c' (Z.of_nat k)),
        (Z.ltb_spec c' (Z.of_nat (S k))); cbn [andb]; subst; auto; lia.
Qed.

(** The outer loop writes the rows top to bottom. *)
Lemma fill_rows (g : Z → Z → Z) rows cols (k : nat) nxt :
  shaped nxt rows cols → (k ≤ rows)%nat →
  ∃ nxt',
    for_each (fun r nxt =>
      for_each (fun c nxt => set_cell nxt r c (g r c))
        (range (Z.of_nat cols)) nxt) (range (Z.of_nat k)) nxt
    = Ok nxt'
    ∧ shaped nxt' rows cols
    ∧ ∀ r' c', cell_at nxt' r' c'
               = if ((0 <=? r') && (r' <? Z.of_nat k))
                    && ((0 <=? c') && (c' <? Z.of_nat cols))
                 then g r' c' else cell_at nxt r' c'.
Proof.
  intros Hs. induction k as [|k IH]; intros Hk.
  - exists nxt. split; [done|]. split; [done|]. intros r' c'.
    destruct (Z.leb_spec 0 r'), (Z.ltb_spec r' (Z.of_nat 0));
      cbn [andb]; auto; lia.
  - destruct IH as (nxt1 & Hrun & Hs1 & Hcells); [lia|].
    destruct (fill_cols (g (Z.of_nat k)) rows cols (Z.of_nat k) cols nxt1)
      as (nxt2 & Hrow & Hs2 & Hcells2); [done|lia|lia|].
    exists nxt2. split; [|split; [done|]].
    + unfold range at 2. rewrite seqZ_S, for_each_app.
      fold (range (Z.of_nat k)). rewrite Hrun. cbn [bind for_each].
      rewrite Z.add_0_l, Hrow. done.
    + intros r' c'. rewrite Hcells2, Hcells.
      destruct (Z.eqb_spec r' (Z.of_nat k)),
        (Z.leb_spec 0 r'), (Z.ltb_spec r' (Z.of_nat k)),
        (Z.ltb_spec r' (Z.of_nat (S k))),
        (Z.leb_spec 0 c'), (Z.ltb_spec c' (Z.of_nat cols));
        cbn [andb]; subst; auto; lia.
Qed.
End LifeLoops.

Section LifeClaims.
Import Life.

Lemma blank_shaped (rows cols : nat) :
  shaped ((fun _ : Z => replicate cols 0) <$> range (Z.of_nat rows)) rows cols.
Proof.
  split.
  - unfold range. rewrite length_fmap, length_seqZ. lia.
  - apply Forall_fmap, Forall_forall. intros x _. apply length_replicate.
Qed.

Lemma first_row_len (m : matrix) :
  (if len m =? 0 then Ok 0 else let* row0 := py_get m 0 in Ok (len row0))
  = Ok (Z.of_nat (length (default [] (head m)))).
Proof.
  destruct m as [|row0 m]; [done|].
  unfold len at 1. destruct (Z.eqb_spec (Z.of_nat (length (row0 :: m))) 0) as [E|_].
  - simpl in E. lia.
  - by rewrite (py_get_lookup (row0 :: m) 0 row0).
Qed.

(** On a rectangular matrix the double loop of [life_step] terminates
    normally and computes the transition rule at every cell. *)
Lemma life_step_shaped m rows cols :
  shaped m rows cols → cols = length (default [] (head m)) →
  ∃ m', life_step m = Ok m' ∧ shaped m' rows cols
    ∧ ∀ r c, 0 <= r < Z.of_nat rows → 0 <= c < Z.of_nat cols →
             cell_at m' r c = conway (cell_at m r c) (moore_count m r c).
Proof.
  intros Hs Hcols.
  pose (g := fun r c => conway (cell_at m r c) (moore_count m r c)).
  destruct (fill_rows g rows cols rows
              ((fun _ : Z => replicate cols 0) <$> range (Z.of_nat rows)))
    as (m' & Hrun & Hs' & Hcells); [apply blank_shaped|lia|].
  exists m'. split; [|split; [done|]].
  - unfold life_step. rewrite first_row_len. cbn [bind].
    rewrite <- Hcols, Nat2Z.id.
    assert (len m = Z.of_nat rows) as -> by (destruct Hs; unfold len; lia).
    rewrite <- Hrun.
    apply for_each_ext with (P := fun _ => True); [done| |done].
    intros r nxt Hr _.
    apply for_each_ext with (P := fun _ => True); [done| |done].
    intros c nxt' Hc _.
    apply elem_of_seqZ in Hr, Hc.
    rewrite (neighbors_moore m rows cols) by done. cbn [bind].
    destruct (shaped_lookup m rows cols r c) as (row & v & Hrow & Hv & _ & Hcell);
      [done|lia|lia|].
    rewrite (py_get_lookup m r row) by (auto; lia). cbn [bind].
    rewrite (py_get_lookup row c v) by (auto; lia). cbn [bind].
    unfold g, conway. rewrite Hcell. by destruct (v =? 1).
  - intros r c Hr Hc. rewrite Hcells.
    destruct (Z.leb_spec 0 r), (Z.ltb_spec r (Z.of_nat rows)),
      (Z.leb_spec 0 c), (Z.ltb_spec c (Z.of_nat cols)); cbn [andb]; auto; lia.
Qed.

Lemma binary_cell m r c : binary m → cell_at m r c = 0 ∨ cell_at m r c = 1.
Proof.
  intros Hb. unfold cell_at. destruct ((0 <=? r) && (0 <=? c)); [|by left].
  destruct (m !! Z.to_nat r) as [row|] eqn:Hrow; [|by left].
  change (default [] (Some row)) with row.
  destruct (row !! Z.to_nat c) as [v|] eqn:Hv; [|by left].
  unfold binary in Hb. rewrite Forall_lookup in Hb.
  specialize (Hb _ _ Hrow). rewrite Forall_lookup in Hb. exact (Hb _ _ Hv).
Qed.

Lemma conway_alive cur n :
  cur = 0 ∨ cur = 1 →
  conway cur n = 1 ↔ (cur = 1 ∧ (n = 2 ∨ n = 3)) ∨ (cur = 0 ∧ n = 3).
Proof.
  intros [-> | ->]; unfold conway; cbn;
    destruct (Z.eqb_spec n 2), (Z.eqb_spec n 3); cbn; split;
    intros; try lia; intuition lia.
Qed.

(** C1: on a rectangular binary matrix, [life_step] returns a matrix of
    the same shape whose cell [(r, c)] is 1 exactly when the input cell
    is 1 with 2 or 3 live Moore neighbours, or is 0 with exactly 3; the
    count reads every position outside the matrix as 0. *)
Theorem life_step_conway_rule (m : matrix) :
  rectangular m → binary m →
  ∃ m', life_step m = Ok m'
    ∧ shaped m' (length m) (length (default [] (head m)))
    ∧ ∀ r c, 0 <= r < len m → 0 <= c < len (default [] (head m)) →
        (cell_at m' r c = 1 ↔
           (cell_at m r c = 1 ∧ (moore_count m r c = 2 ∨ moore_count m r c = 3))
           ∨ (cell_at m r c = 0 ∧ moore_count m r c = 3)).
Proof.
  intros Hrect Hbin.
  destruct (life_step_shaped m _ _ (rectangular_shaped m Hrect) eq_refl)
    as (m' & Hrun & Hs & Hcells).
  exists m'. split; [done|]. split; [done|].
  intros r c Hr Hc. rewrite Hcells by done.
  apply conway_alive, binary_cell, Hbin.
Qed.

Lemma life_step_conway_rule_witness :
  ∃ m', life_step [[0; 0; 0]; [1; 1; 1]; [0; 0; 0]] = Ok m'
    ∧ cell_at m' 0 1 = 1 ∧ cell_at m' 1 0 ≠ 1.
Proof.
  assert (rectangular [[0; 0; 0]; [1; 1; 1]; [0; 0; 0]]) as Hrect
    by (repeat constructor).
  assert (binary [[0; 0; 0]; [1; 1; 1]; [0; 0; 0]]) as Hbin
    by (repeat (constructor; auto)).
  destruct (life_step_conway_rule _ Hrect Hbin) as (m' & Hrun & _ & Hcells).
  exists m'. split; [done|]. split.
  - apply Hcells; [vm_compute; split; congruence ..|]. right. by vm_compute.
  - intros H. apply Hcells in H; [|vm_compute; split; congruence ..].
    vm_compute in H. destruct H as [[_ [H|H]]|[H _]]; discriminate.
Defined.
End LifeClaims.

Section Simulate.
Import Life.

Lemma shaped_no_columns m rows : shaped m rows 0 → m = replicate rows [].
Proof.
intros [<- Hrows]. induction m as [|row m IH]; [done|].
inversion Hrows as [|? ? Hrow Hm]; subst. simpl.
apply nil_length_inv in Hrow as ->. f_equal. by apply IH.
Qed.

(** C8: [life_step] on the matrix without rows, and on any matrix whose
    rows are all empty, returns normally with the input's shape: no rows,
    respectively the same number of empty rows. *)
Theorem life_step_degenerate :
  life_step [] = Ok [] ∧
  ∀ rows : nat, life_step (replicate rows []) = Ok (replicate rows []).
Proof.
split; [done|]. intros rows.
assert (shaped (replicate rows ([] : list Z)) rows 0) as Hs.
{ split; [apply length_replicate|]. by apply Forall_replicate. }
destruct (life_step_shaped _ rows 0%nat Hs) as (m' & Hrun & Hs' & _).
- by destruct rows.
- rewrite Hrun. f_equal. by apply shaped_no_columns.
Qed.

Lemma step_iter_rectangular m i :
  rectangular m → ∃ mi, step_iter i m = Ok mi ∧ rectangular mi.
Proof.
intros Hm. induction i as [|i (mi & Hrun & Hmi)]; [by exists m|].
destruct (life_step_shaped mi _ _ (rectangular_shaped mi Hmi) eq_refl)
  as (m' & Hstep & Hs & _).
exists m'. split; [|by eapply shaped_rectangular].
simpl. by rewrite Hrun.
Qed.

(** The loop of [simulate] after [k] iterations: [cur] is the [k]-th
    iterate and [frames] lists the iterates 0 to [k]. *)
Lemma simulate_loop m (k : nat) :
  rectangular m →
  ∃ cur frames,
    for_each (fun (_ : Z) '(cur, frames) =>
                let* cur' := life_step cur in Ok (cur', frames ++ [cur']))
      (range (Z.of_nat k)) (m, [m]) = Ok (cur, frames)
    ∧ step_iter k m = Ok cur
    ∧ length frames = S k
    ∧ ∀ i, (i ≤ k)%nat → ∃ fi, step_iter i m = Ok fi ∧ frames !! i = Some fi.
Proof.
intros Hm. induction k as [|k (cur & frames & Hrun & Hcur & Hlen & Hframes)].
- exists m, [m]. repeat split; auto.
  intros i Hi. exists m. replace i with 0%nat by lia. done.
- destruct (step_iter_rectangular m (S k) Hm) as (cur' & Hcur' & _).
  exists cur', (frames ++ [cur']). split; [|split; [done|split]].
  + unfold range. rewrite seqZ_S, for_each_app. fold (range (Z.of_nat k)).
    rewrite Hrun. cbn [bind for_each]. simpl in Hcur'. rewrite Hcur in Hcur'.
    cbn [bind] in Hcur'. by rewrite Hcur'.
  + rewrite length_app. simpl. lia.
  + intros i Hi. destruct (decide (i = S k)) as [->|Hne].
    * exists cur'. split; [done|].
      rewrite lookup_app_r by lia. by rewrite Hlen, Nat.sub_diag.
    * destruct (Hframes i) as (fi & Hfi & Hlook); [lia|].
      exists fi. split; [done|]. rewrite lookup_app_l by lia. done.
Qed.

(** C2: for a rectangular matrix [m] and [N >= 1], [simulate m N] returns
    exactly [N] frames, frame 0 is [m], and frame [i] is [life_step]
    applied [i] times to [m]. *)
Theorem simulate_frames (m : matrix) (N : Z) :
  rectangular m → 1 <= N →
  ∃ frames, simulate m N = Ok frames
    ∧ len frames = N
    ∧ frames !! 0%nat = Some m
    ∧ ∀ i : nat, 1 <= Z.of_nat i <= N - 1 →
        ∃ fi, step_iter i m = Ok fi ∧ frames !! i = Some fi.
Proof.
intros Hm HN.
destruct (simulate_loop m (Z.to_nat (N - 1)) Hm)
  as (cur & frames & Hrun & _ & Hlen & Hframes).
rewrite Z2Nat.id in Hrun by lia.
exists frames. split; [|split; [|split]].
- unfold simulate. by rewrite Hrun.
- unfold len. lia.
- destruct (Hframes 0%nat) as (f0 & Hf0 & Hlook); [lia|].
  simpl in Hf0. congruence.
- intros i Hi. apply Hframes. lia.
Qed.

Lemma simulate_frames_witness :
  ∃ frames, simulate [[0; 0; 0]; [1; 1; 1]; [0; 0; 0]] 3 = Ok frames
    ∧ len frames = 3.
Proof.
assert (rectangular [[0; 0; 0]; [1; 1; 1]; [0; 0; 0]]) as Hrect
  by (repeat constructor).
destruct (simulate_frames _ 3 Hrect ltac:(lia)) as (frames & Hrun & Hlen & _).
by exists frames.
Defined.

(** C7: for [steps <= 1], zero and negative values included, [simulate]
    returns normally with the single frame [m]. *)
Theorem simulate_single_frame (m : matrix) (steps : Z) :
  steps <= 1 → simulate m steps = Ok [m].
Proof.
intros Hsteps. unfold simulate, range. by rewrite seqZ_nil by lia.
Qed.

Lemma simulate_single_frame_witness :
  simulate [[0; 1]; [1; 1]] (-3) = Ok [[[0; 1]; [1; 1]]]
  ∧ simulate [[0; 1]; [1; 1]] 0 = Ok [[[0; 1]; [1; 1]]].
Proof.
split; apply simulate_single_frame; lia.
Defined.
End Simulate.

(** ** Python strings *)

Section Strings.

Lemma chars_app a b : chars (a +:+ b) = chars a ++ chars b.
Proof. induction a as [|c a IH]; simpl; [done|]. unfold chars in *. simpl. by rewrite IH. Qed.

Lemma str_app l1 l2 : str (l1 ++ l2) = str l1 +:+ str l2.
Proof. induction l1 as [|c l1 IH]; simpl; [done|]. unfold str in *. simpl. by rewrite IH. Qed.

Lemma str_chars s : str (chars s) = s.
Proof. apply String.string_of_list_ascii_of_string. Qed.

Lemma chars_str l : chars (str l) = l.
Proof. apply String.list_ascii_of_string_of_list_ascii. Qed.

Lemma app_assoc_string a b c : a +:+ b +:+ c = (a +:+ b) +:+ c.
Proof.
induction a as [|x a IH]; [done|].
change (String x (a +:+ b +:+ c) = String x ((a +:+ b) +:+ c)). by rewrite IH.
Qed.

Lemma chars_lower s : chars (lower s) = ascii_lower <$> chars s.
Proof. unfold lower. apply chars_str. Qed.

Lemma endswith_suffix s suffix :
  endswith s suffix = true ↔ ∃ pre, s = pre +:+ suffix.
Proof.
unfold endswith. rewrite bool_decide_eq_true. split.
- intros [k Hk]. exists (str k).
  rewrite <- (str_chars s), Hk, str_app. by rewrite str_chars.
- intros [pre ->]. exists (chars pre). apply chars_app.
Qed.

Lemma prefix_cons_iff {A} (x y : A) l1 l2 :
  x :: l1 `prefix_of` y :: l2 ↔ x = y ∧ l1 `prefix_of` l2.
Proof.
split.
- intros H. split; [by eapply prefix_cons_inv_1|by eapply prefix_cons_inv_2].
- intros [-> H]. by apply prefix_cons.
Qed.

(** A three-letter suffix of [{uri}local] never reaches across the closing
    brace: it is a suffix of the local name. *)
Lemma suffix_svg_after_brace (a l : list ascii) :
  chars "svg" `suffix_of` a ++ chars "}" ++ l ↔ chars "svg" `suffix_of` l.
Proof.
rewrite !suffix_prefix_reverse, !reverse_app.
change (reverse (chars "svg")) with (chars "gvs").
change (reverse (chars "}")) with (chars "}").
destruct (reverse l) as [|x [|y [|z r]]]; cbn [app chars String.list_ascii_of_string];
  rewrite ?prefix_cons_iff; split; intros H;
  repeat match goal with
         | H : _ ∧ _ |- _ => destruct H
         | H : _ :: _ `prefix_of` [] |- _ => by apply prefix_nil_not in H
         | H : @eq ascii _ _ |- _ => discriminate H
         end;
  repeat split; auto using prefix_nil.
Qed.

Lemma split_go_nonempty sep cur l : split_go sep cur l ≠ [].
Proof.
revert cur. induction l as [|c l IH]; intros cur; simpl; [done|].
destruct (decide (c = sep)); [done|apply IH].
Qed.

Lemma split_go_no_sep sep cur l : sep ∉ l → split_go sep cur l = [cur ++ l].
Proof.
revert cur. induction l as [|c l IH]; intros cur Hsep; simpl.
- by rewrite app_nil_r.
- apply not_elem_of_cons in Hsep as [Hc Hl].
  destruct (decide (c = sep)); [congruence|].
  rewrite IH by done. by rewrite <- app_assoc.
Qed.

Lemma split_go_last sep cur a b :
  sep ∉ b → last (split_go sep cur (a ++ sep :: b)) = Some b.
Proof.
intros Hb. revert cur. induction a as [|c a IH]; intros cur; simpl.
- destruct (decide (sep = sep)); [|done]. by rewrite split_go_no_sep.
- destruct (decide (c = sep)); [|apply IH].
  rewrite last_cons, IH. done.
Qed.
End Strings.

(** ** ImageValidator *)

Section ValidateFacts.
Import Validate.

(** Induction over an element tree, with the hypothesis for every child. *)
Lemma element_tree_ind (P : element → Prop) :
  (∀ t a cs, Forall P cs → P (Element t a cs)) → ∀ e, P e.
Proof.
intros H. fix IH 1. intros [t a cs]. apply H.
induction cs as [|c cs IHcs]; constructor; [apply IH|apply IHcs].
Qed.

Lemma iter_self e : e ∈ iter e.
Proof. destruct e. simpl. left. Qed.

(** [iter] lists exactly the elements of the tree. *)
Lemma iter_within e d : d ∈ iter e ↔ within e d.
Proof.
split.
- revert d. induction e as [t a cs IH] using element_tree_ind. intros d Hd.
  simpl in Hd. apply elem_of_cons in Hd as [->|Hd]; [constructor|].
  apply list_elem_of_bind in Hd as (c & Hd & Hc).
  rewrite Forall_forall in IH.
  apply within_child with c; [done|]. by apply IH.
- induction 1 as [e|e c d Hc _ IH]; [apply iter_self|].
  destruct e as [t a cs]. simpl in *. right.
  apply list_elem_of_bind. by exists c.
Qed.

Lemma animate_listed root :
  "animate" ∈ nsless_tag <$> iter root
  ↔ ∃ e, within root e ∧ nsless_tag e = "animate".
Proof.
rewrite list_elem_of_fmap. split.
- intros (e & He & Hin). exists e. by rewrite <- iter_within.
- intros (e & Hin & He). exists e. by rewrite iter_within.
Qed.

Lemma truthy_nonempty o :
  truthy o = true ↔ ∃ v, o = Some v ∧ v ≠ EmptyString.
Proof.
split.
- destruct o as [[|c v]|]; try done. intros _. by eexists.
- intros (v & -> & Hv). by destruct v.
Qed.

(** The root test reads the local name only. *)
Lemma root_test_local_name uri local :
  endswith (lower ("{" +:+ uri +:+ "}" +:+ local)) "svg"
  = endswith (lower local) "svg".
Proof.
unfold endswith. apply bool_decide_ext.
rewrite !chars_lower, !chars_app, !fmap_app.
change (ascii_lower <$> chars "}") with (chars "}").
rewrite (app_assoc (ascii_lower <$> chars "{")).
apply suffix_svg_after_brace.
Qed.

Lemma nsless_tag_local uri local a cs :
  ("}" : ascii) ∉ chars local →
  nsless_tag (Element ("{" +:+ uri +:+ "}" +:+ local) a cs) = local.
Proof.
intros Hlocal. unfold nsless_tag, split. cbn [tag].
rewrite app_assoc_string. rewrite chars_app.
change (chars ("}" +:+ local)) with ("}"%char :: chars local).
rewrite fmap_last, split_go_last by done. simpl. apply str_chars.
Qed.
End ValidateFacts.

Section ValidateClaims.
Import Validate.

(** C3 (as amended): [main] returns 2 exactly when parsing fails;
    otherwise 4 exactly when the lower-cased root tag does not end in
    [svg], a test that for a qualified tag [{uri}local] reads the local
    name only; otherwise 3 exactly when the root's [width] or [height] is
    absent or empty; otherwise 5 exactly when no element of the tree has
    the local name [animate]; and 0 otherwise. *)
Theorem validate_exit_codes (ET_parse : string → option element) (path : string) :
  (main ET_parse path = 2 ↔ ET_parse path = None)
  ∧ (∀ root, ET_parse path = Some root →
      let svg := ∃ pre, lower (tag root) = pre +:+ "svg" in
      let sized := ∃ w h, attrib root !! "width" = Some w
                          ∧ attrib root !! "height" = Some h
                          ∧ w ≠ EmptyString ∧ h ≠ EmptyString in
      let animated := ∃ e, within root e ∧ nsless_tag e = "animate" in
      (main ET_parse path = 4 ↔ ¬ svg)
      ∧ (main ET_parse path = 3 ↔ svg ∧ ¬ sized)
      ∧ (main ET_parse path = 5 ↔ svg ∧ sized ∧ ¬ animated)
      ∧ (main ET_parse path = 0 ↔ svg ∧ sized ∧ animated))
  ∧ (∀ uri local,
      endswith (lower ("{" +:+ uri +:+ "}" +:+ local)) "svg"
      = endswith (lower local) "svg")
  ∧ (∀ uri local a cs, ("}" : ascii) ∉ chars local →
      nsless_tag (Element ("{" +:+ uri +:+ "}" +:+ local) a cs) = local).
Proof.
split; [|split; [|split; [apply root_test_local_name|apply nsless_tag_local]]].
- unfold main. destruct (ET_parse path) as [root|]; [|done].
  split; [|done]. by repeat case_match.
- intros root Hroot svg sized animated. unfold main. rewrite Hroot.
  assert (endswith (lower (tag root)) "svg" = true ↔ svg) as Hsvg
    by apply endswith_suffix.
  assert (negb (truthy (attrib root !! "width"))
          || negb (truthy (attrib root !! "height")) = false ↔ sized) as Hsized.
  { rewrite orb_false_iff, !negb_false_iff, !truthy_nonempty. unfold sized.
    split.
    - intros [(w & Hw & ?) (h & Hh & ?)]. by exists w, h.
    - intros (w & h & Hw & Hh & ? & ?). split; eauto. }
  assert (bool_decide ("animate" ∈ nsless_tag <$> iter root) = true ↔ animated)
    as Hanim by (rewrite bool_decide_eq_true; apply animate_listed).
  destruct (endswith (lower (tag root)) "svg").
  + destruct (negb (truthy (attrib root !! "width"))
              || negb (truthy (attrib root !! "height"))).
    * intuition (discriminate || auto).
    * destruct (bool_decide ("animate" ∈ nsless_tag <$> iter root));
        intuition (discriminate || auto).
  + intuition (discriminate || auto).
Qed.

(** C3, counterexample: a root that carries both a [width] and a [height]
    attribute, the width being empty, is answered with exit code 3; and a
    sized, animated document whose root has the local name [notsvg] is
    answered with 0, not 4. *)
Lemma validate_empty_width_rejected :
  let doc := Element "svg"
               (<["width" := EmptyString]> {["height" := "10"]})
               [Element "animate" ∅ []] in
  let other := Element "{http://example.org/ns}notsvg"
                 (<["width" := "10"]> {["height" := "10"]})
                 [Element "{http://example.org/ns}animate" ∅ []] in
  (is_Some (attrib doc !! "width") ∧ is_Some (attrib doc !! "height")
   ∧ main (fun _ => Some doc) "life.svg" = 3)
  ∧ (nsless_tag other = "notsvg" ∧ main (fun _ => Some other) "other.svg" = 0).
Proof.
split; [split; [|split]|split];
  [eexists; vm_compute; reflexivity ..|by vm_compute|by vm_compute|by vm_compute].
Qed.
End ValidateClaims.

(** ** GridFetcher *)

Section FetchFacts.
Import Fetch.

Lemma node_tree_ind (P : node → Prop) :
  (∀ s, P (NavigableString s)) →
  (∀ n a cs, Forall P cs → P (Tag n a cs)) → ∀ x, P x.
Proof.
intros Hs Ht. fix IH 1. intros [s|n a cs]; [apply Hs|]. apply Ht.
induction cs as [|c cs IHcs]; constructor; [apply IH|apply IHcs].
Qed.

(** [Tag.__eq__] decides structural equality. *)
Lemma node_eqb_eq a b : node_eqb a b = true ↔ a = b.
Proof.
revert b. induction a as [s|n at1 cs IH] using node_tree_ind; intros [t|m at2 ds];
  simpl; try (split; [done|congruence]).
- rewrite bool_decide_eq_true. split; congruence.
- rewrite !andb_true_iff, !bool_decide_eq_true.
  assert ((fix contents_eqb (l1 l2 : list node) : bool :=
             match l1, l2 with
             | [], [] => true
             | x :: l1', y :: l2' => node_eqb x y && contents_eqb l1' l2'
             | _, _ => false
             end) cs ds = true ↔ cs = ds) as ->.
  { revert ds. induction IH as [|c cs Hc _ IHcs]; intros [|d ds];
      try (split; [done|congruence]).
    rewrite andb_true_iff, Hc, IHcs. split; [intros [-> ->]; done|].
    intros [= -> ->]. done. }
  split; [intros [[-> ->] ->]; done|]. intros [= -> -> ->]. done.
Qed.

Lemma filter_eq_absent rects rect :
  rect ∉ rects → List.filter (fun r => node_eqb r rect) rects = [].
Proof.
induction rects as [|r rects IH]; intros Hnot; simpl; [done|].
apply not_elem_of_cons in Hnot as [Hne Hnot].
destruct (node_eqb r rect) eqn:E; [|by apply IH].
apply node_eqb_eq in E. congruence.
Qed.

(** Among pairwise different shapes the fallback row is 0 for every one
    of them, whatever its position. *)
Lemma fallback_row_distinct rects rect :
  NoDup rects → rect ∈ rects → fallback_row rects rect = 0.
Proof.
unfold fallback_row, len. induction 1 as [|r rects Hr Hnd IH]; intros Hin.
- by apply elem_of_nil in Hin.
- simpl. destruct (node_eqb r rect) eqn:E.
  + apply node_eqb_eq in E as ->. rewrite filter_eq_absent by done. done.
  + apply elem_of_cons in Hin as [->|Hin]; [|by apply IH].
    assert (node_eqb r r = true) by by apply node_eqb_eq. congruence.
Qed.

Lemma py_set_out_of_range {A} (l : list A) i x :
  len l <= i ∨ i < - len l → py_set l i x = Raise IndexError.
Proof.
intros Hi. unfold py_set, norm_index. fold (len l).
destruct (Z.leb_spec 0 i), (Z.ltb_spec i (len l)), (Z.leb_spec (- len l) i),
  (Z.ltb_spec i 0); cbn [andb bind]; try done; unfold len in *; lia.
Qed.

Lemma py_set_negative {A} (l : list A) i x :
  - len l <= i < 0 → py_set l i x = Ok (<[Z.to_nat (len l + i) := x]> l).
Proof.
intros Hi. unfold py_set, norm_index. fold (len l).
destruct (Z.leb_spec 0 i), (Z.ltb_spec i (len l)), (Z.leb_spec (- len l) i),
  (Z.ltb_spec i 0); cbn [andb bind]; try done; unfold len in *; lia.
Qed.
End FetchFacts.

Section FetchClaims.
Import Fetch.

(** C4 (the code departs from it): in a week column of two different day
    cells that carry no vertical offset, the fallback assigns row 0 to the
    cell at position 1 as well as to the one at position 0, so the second
    cell overwrites the first and the live day is lost from the grid. *)
Theorem fallback_row_ignores_position (int_of_float int_of_str : string → option Z) :
  [day_a; day_b] !! 1%nat = Some day_b
  ∧ get day_b "y" = None
  ∧ row_index int_of_float [day_a; day_b] day_a = 0
  ∧ row_index int_of_float [day_a; day_b] day_b = 0
  ∧ (int_of_str "1" = Some 1 → int_of_str "0" = Some 0 →
     fetch_contributions_matrix int_of_float int_of_str two_cell_page
     = Ok [[0]; [0]; [0]; [0]; [0]; [0]; [0]]).
Proof.
repeat split; try by vm_compute.
intros H1 H0.
unfold fetch_contributions_matrix, find, two_cell_page.
change (find_all "svg" _) with [Tag "svg" ∅ [Tag "g" ∅ [day_a; day_b]]].
cbn [head].
change (find_all "g" _) with [Tag "g" ∅ [day_a; day_b]].
cbn [for_each]. unfold add_week.
change (find_all "rect" _) with [day_a; day_b].
cbn [for_each]. unfold place_rect.
change (default (default "0" (get day_a "data-level")) (get day_a "data-count"))
  with "1".
change (default (default "0" (get day_b "data-level")) (get day_b "data-count"))
  with "0".
rewrite H1, H0. by vm_compute.
Qed.

Lemma fallback_row_ignores_position_witness :
  fetch_contributions_matrix decimal decimal two_cell_page
  = Ok [[0]; [0]; [0]; [0]; [0]; [0]; [0]].
Proof.
by apply (fallback_row_ignores_position decimal decimal).
Defined.

(** C10: the decoded row index is not confined to the 7 cells of a
    column.  An offset of 70 or more makes the assignment [col[yi] = ...]
    raise [IndexError], which [fetch_contributions_matrix] lets through
    (no [RuntimeError], no matrix); an offset from -79 to -10 decodes to an
    index from -7 to -1 and the cell is written counting from the bottom
    of the column. *)
Theorem fetch_row_index_unbounded (int_of_float int_of_str : string → option Z) :
  (∀ rects rect y a count col,
     get rect "y" = Some y → int_of_float y = Some a →
     int_of_str (default (default "0" (get rect "data-level"))
                         (get rect "data-count")) = Some count →
     length col = 7%nat →
     (70 <= a → place_rect int_of_float int_of_str rects rect col
                = Raise IndexError)
     ∧ (-79 <= a <= -10 →
        -7 <= Z.quot a 10 <= -1
        ∧ place_rect int_of_float int_of_str rects rect col
          = Ok (<[Z.to_nat (7 + Z.quot a 10) := if 0 <? count then 1 else 0]> col)))
  ∧ (int_of_float "70" = Some 70 → int_of_str "1" = Some 1 →
     fetch_contributions_matrix int_of_float int_of_str (one_cell_page "70" "1")
     = Raise IndexError)
  ∧ (int_of_float "-10" = Some (-10) → int_of_str "1" = Some 1 →
     fetch_contributions_matrix int_of_float int_of_str (one_cell_page "-10" "1")
     = Ok [[0]; [0]; [0]; [0]; [0]; [0]; [1]]).
Proof.
split; [|split].
- intros rects rect y a count col Hy Ha Hcount Hcol.
  unfold place_rect, row_index. rewrite Hy, Ha, Hcount. cbn [bind]. split.
  + intros Hbig. apply py_set_out_of_range. left. unfold len. rewrite Hcol.
    rewrite Z.quot_div_nonneg by lia.
    apply Z.div_le_lower_bound; lia.
  + intros Hneg.
    assert (-7 <= Z.quot a 10 <= -1) as Hq.
    { replace a with (- - a) by lia. rewrite Z.quot_opp_l by lia.
      rewrite Z.quot_div_nonneg by lia.
      assert (1 <= - a / 10) by (apply Z.div_le_lower_bound; lia).
      assert (- a / 10 < 8) by (apply Z.div_lt_upper_bound; lia). lia. }
    split; [done|].
    rewrite py_set_negative by (unfold len; rewrite Hcol; lia).
    unfold len. by rewrite Hcol.
- intros Hf Hi.
  unfold fetch_contributions_matrix, find, one_cell_page.
  set (rect := Tag "rect" _ []).
  change (find_all "svg" _) with [Tag "svg" ∅ [Tag "g" ∅ [rect]]]. cbn [head].
  change (find_all "g" _) with [Tag "g" ∅ [rect]].
  cbn [for_each]. unfold add_week.
  change (find_all "rect" _) with [rect].
  cbn [for_each]. unfold place_rect, row_index.
  change (get rect "y") with (Some "70"). cbv beta iota.
  change (default (default "0" (get rect "data-level")) (get rect "data-count"))
    with "1".
  rewrite Hf, Hi. by vm_compute.
- intros Hf Hi.
  unfold fetch_contributions_matrix, find, one_cell_page.
  set (rect := Tag "rect" _ []).
  change (find_all "svg" _) with [Tag "svg" ∅ [Tag "g" ∅ [rect]]]. cbn [head].
  change (find_all "g" _) with [Tag "g" ∅ [rect]].
  cbn [for_each]. unfold add_week.
  change (find_all "rect" _) with [rect].
  cbn [for_each]. unfold place_rect, row_index.
  change (get rect "y") with (Some "-10"). cbv beta iota.
  change (default (default "0" (get rect "data-level")) (get rect "data-count"))
    with "1".
  rewrite Hf, Hi. by vm_compute.
Qed.

Lemma fetch_row_index_unbounded_witness :
  fetch_contributions_matrix decimal decimal (one_cell_page "70" "1")
  = Raise IndexError
  ∧ fetch_contributions_matrix decimal decimal (one_cell_page "-10" "1")
    = Ok [[0]; [0]; [0]; [0]; [0]; [0]; [1]].
Proof.
destruct (fetch_row_index_unbounded decimal decimal) as (_ & Hbig & Hneg).
split; [apply Hbig|apply Hneg]; reflexivity.
Defined.
End FetchClaims.

(** ** AnimationRenderer *)

Section Loops.
Context {A S : Type}.

(** A loop whose body never raises under an invariant runs to the end and
    keeps the invariant. *)
Lemma for_each_invariant (P : S → Prop) (body : A → S → result S) l s :
  P s →
  (∀ x s, x ∈ l → P s → ∃ s', body x s = Ok s' ∧ P s') →
  ∃ s', for_each body l s = Ok s' ∧ P s'.
Proof.
revert s. induction l as [|x l IH]; intros s Hs Hbody; simpl; [by exists s|].
destruct (Hbody x s) as (s1 & Hrun & Hs1); [left|done|].
rewrite Hrun. cbn [bind]. apply IH; [done|].
intros y s2 Hy. apply Hbody. by right.
Qed.
End Loops.

Section RenderFacts.
Import Render.
Variables (fmt_3f fmt_6f : Q → string).
Variables (cell gap : Z) (alive_color dead_color : string) (frame_duration : Q).

Lemma alive_cells_run frame rows cols (n : nat) :
  shaped frame rows cols → (n ≤ cols)%nat →
  ∃ g_cells,
    alive_cells cell gap alive_color (Z.of_nat rows) (Z.of_nat n) frame
    = Ok g_cells
    ∧ Forall (alive_rect cell gap alive_color) g_cells.
Proof.
intros Hs Hn. unfold alive_cells.
apply for_each_invariant with (P := Forall (alive_rect cell gap alive_color));
  [constructor|].
intros r cells Hr Hcells.
apply for_each_invariant with (P := Forall (alive_rect cell gap alive_color));
  [done|].
intros c cells' Hc Hcells'.
apply elem_of_seqZ in Hr, Hc.
destruct (shaped_lookup frame rows cols r c) as (row & v & Hrow & Hv & _ & _);
  [done|lia|lia|].
rewrite (py_get_lookup frame r row) by (auto; lia). cbn [bind].
rewrite (py_get_lookup row c v) by (auto; lia). cbn [bind].
destruct (v =? 1); eexists; (split; [done|]); [|done].
apply Forall_app. split; [done|]. constructor; [|constructor]. by exists r, c.
Qed.

Lemma head_row_len (frame : matrix) rows cols :
  shaped frame rows cols → (length (default [] (head frame)) ≤ cols)%nat.
Proof.
intros [_ Hrows]. destruct frame as [|row frame]; simpl; [lia|].
inversion Hrows; subst. lia.
Qed.

(** The loop over [enumerate(frames)] appends one group per frame, in
    order, numbered from [a]. *)
Lemma groups_loop (F : Z) rows cols (n : nat) (fs : list matrix) (a : Z) parts0 :
  Forall (fun f => shaped f rows cols) fs → (n ≤ cols)%nat →
  ∃ groups,
    for_each (fun '(k, frame) parts =>
        let* g_cells := alive_cells cell gap alive_color
                          (Z.of_nat rows) (Z.of_nat n) frame in
        Ok (parts ++ [frame_group fmt_3f fmt_6f frame_duration F k g_cells]))
      (zip (seqZ a (len fs)) fs) parts0
    = Ok (parts0 ++ groups)
    ∧ length groups = length fs
    ∧ ∀ j : nat, (j < length fs)%nat →
        ∃ g_cells, Forall (alive_rect cell gap alive_color) g_cells
          ∧ groups !! j
            = Some (frame_group fmt_3f fmt_6f frame_duration F
                      (a + Z.of_nat j) g_cells).
Proof.
intros Hfs Hn. revert a parts0.
induction Hfs as [|f fs Hf _ IH]; intros a parts0.
- exists []. rewrite app_nil_r. split; [done|]. split; [done|].
  intros j Hj. simpl in Hj. lia.
- unfold len. rewrite seqZ_cons by (simpl; lia).
  replace (Z.pred (Z.of_nat (length (f :: fs)))) with (len fs)
    by (unfold len; simpl; lia).
  cbn [zip zip_with for_each].
  destruct (alive_cells_run f rows cols n Hf Hn) as (g_cells & Hrun & Hcells).
  rewrite Hrun. cbn [bind].
  destruct (IH (Z.succ a)
              (parts0 ++ [frame_group fmt_3f fmt_6f frame_duration F a g_cells]))
    as (groups & Hloop & Hlen & Hgroups).
  exists (frame_group fmt_3f fmt_6f frame_duration F a g_cells :: groups).
  split; [|split].
  + rewrite Hloop. by rewrite <- app_assoc.
  + simpl. by rewrite Hlen.
  + intros [|j] Hj.
    * exists g_cells. split; [done|]. simpl. by rewrite Z.add_0_r.
    * destruct (Hgroups j) as (cells & Hc & Hlook); [simpl in Hj; lia|].
      exists cells. split; [done|]. simpl. rewrite Hlook.
      do 2 f_equal. lia.
Qed.

(** [svg_parts] on a non-empty sequence of equally shaped frames: the
    three leading parts, one group per frame, the closing tag. *)
Lemma svg_parts_run (frames : list matrix) rows cols :
  frames ≠ [] → Forall (fun f => shaped f rows cols) frames →
  ∃ (n : nat) groups,
    ((0 < rows)%nat → n = cols)
    ∧ svg_parts fmt_3f fmt_6f cell gap alive_color dead_color frame_duration frames
      = Ok ([xml_declaration;
             svg_open (Z.of_nat n * (cell + gap) - gap)
                      (Z.of_nat rows * (cell + gap) - gap);
             background cell gap dead_color (Z.of_nat rows) (Z.of_nat n)]
            ++ groups ++ ["</svg>"])
    ∧ length groups = length frames
    ∧ ∀ j : nat, (j < length frames)%nat →
        ∃ g_cells, Forall (alive_rect cell gap alive_color) g_cells
          ∧ groups !! j
            = Some (frame_group fmt_3f fmt_6f frame_duration (len frames)
                      (Z.of_nat j) g_cells).
Proof.
intros Hne Hfs. destruct frames as [|frame0 frames]; [done|].
unfold svg_parts. rewrite first_row_len. cbn [bind].
assert (shaped frame0 rows cols) as Hs0 by (by inversion Hfs).
assert (len frame0 = Z.of_nat rows) as Hrows by (destruct Hs0; unfold len; lia).
pose proof (head_row_len frame0 rows cols Hs0) as Hn.
set (n := length (default [] (head frame0))) in *.
rewrite !Hrows.
set (parts0 := [xml_declaration; _; _]).
destruct (groups_loop (len (frame0 :: frames)) rows cols n (frame0 :: frames) 0 parts0
            Hfs Hn) as (groups & Hloop & Hlen & Hgroups).
exists n, groups.
split; [|split; [|split; [done|]]].
- intros Hpos. destruct Hs0 as [Hlen0 Hrows0]. subst n.
  destruct frame0 as [|row frame0]; [simpl in Hlen0; lia|].
  simpl. by inversion Hrows0.
- unfold enumerate, range. rewrite Hloop. cbn [bind].
  by rewrite <- app_assoc.
- intros j Hj. destruct (Hgroups j Hj) as (cells & Hc & Hlook).
  exists cells. split; [done|]. by rewrite Hlook, Z.add_0_l.
Qed.
End RenderFacts.

Section RenderClaims.
Import Render.

Lemma values_lookup (n k : Z) (i : nat) :
  Z.of_nat i <= n →
  values n k !! i = Some (if Z.of_nat i =? k then "1" else "0").
Proof.
intros Hi. unfold values, range. rewrite list_lookup_fmap.
rewrite lookup_seqZ_lt by lia. simpl. by rewrite Z.add_0_l.
Qed.

Lemma key_times_lookup (n : Z) (i : nat) :
  Z.of_nat i <= n →
  key_times n !! i = Some (inject_Z (Z.of_nat i) / inject_Z n)%Q.
Proof.
intros Hi. unfold key_times, range. rewrite list_lookup_fmap.
rewrite lookup_seqZ_lt by lia. simpl. by rewrite Z.add_0_l.
Qed.

Lemma key_time_first fmt_6f (n : Z) :
  key_time_str fmt_6f (inject_Z 0 / inject_Z n)%Q = "0".
Proof.
unfold key_time_str.
assert (Qeq_bool (inject_Z 0 / inject_Z n) 0 = true) as ->; [|done].
apply Qeq_bool_iff. unfold Qdiv. apply Qmult_0_l.
Qed.

Lemma key_time_last fmt_6f (n : Z) :
  1 <= n → key_time_str fmt_6f (inject_Z n / inject_Z n)%Q = "1".
Proof.
intros Hn. unfold key_time_str.
assert (inject_Z n / inject_Z n == 1)%Q as Hone.
{ apply Qmult_inv_r. unfold Qeq, inject_Z. simpl. lia. }
assert (Qeq_bool (inject_Z n / inject_Z n) 1 = true) as ->
  by by apply Qeq_bool_iff.
rewrite orb_true_r. cbn [negb].
destruct (Qeq_bool (inject_Z n / inject_Z n) 0) eqn:E; [|done].
apply Qeq_bool_iff in E. rewrite Hone in E. discriminate E.
Qed.

(** C6: for a non-empty sequence of [F] equally shaped frames the parts
    hold one group per frame.  The group of frame [k] has inline opacity 1
    for [k = 0] and 0 otherwise and carries one [animate] element on
    [opacity]: discrete mode, repeating indefinitely, duration
    [frame_duration * F] seconds, [keyTimes] the [F + 1] values [i / F]
    from 0 to 1, and [values] the [F + 1] entries that are 1 at index [k]
    and 0 elsewhere, the last index included. *)
Theorem render_frame_groups (fmt_3f fmt_6f : Q → string) (cell gap : Z)
    (alive_color dead_color : string) (frame_duration : Q)
    (frames : list matrix) (rows cols : nat) :
  frames ≠ [] → Forall (fun f => shaped f rows cols) frames →
  let F := len frames in
  ∃ parts,
    svg_parts fmt_3f fmt_6f cell gap alive_color dead_color frame_duration frames
    = Ok parts
    ∧ length parts = (length frames + 4)%nat
    ∧ (∀ k : nat, (k < length frames)%nat →
         ∃ g_cells,
           parts !! (3 + k)%nat
           = Some ("<g id=" +:+ quoted ("f" +:+ str_int (Z.of_nat k))
                   +:+ " opacity=" +:+ quoted (if decide (k = 0%nat) then "1" else "0")
                   +:+ ">" +:+ join EmptyString g_cells
                   +:+ "<animate attributeName=" +:+ quoted "opacity"
                   +:+ " dur="
                   +:+ quoted (fmt_3f (frame_duration * inject_Z F)%Q +:+ "s")
                   +:+ " repeatCount=" +:+ quoted "indefinite"
                   +:+ " calcMode=" +:+ quoted "discrete"
                   +:+ " keyTimes="
                   +:+ quoted (join ";" (key_time_str fmt_6f <$> key_times F))
                   +:+ " values=" +:+ quoted (join ";" (values F (Z.of_nat k)))
                   +:+ "/></g>")
           ∧ length (values F (Z.of_nat k)) = S (length frames)
           ∧ ∀ i : nat, (i ≤ length frames)%nat →
               values F (Z.of_nat k) !! i
               = Some (if decide (i = k) then "1" else "0"))
    ∧ length (key_times F) = S (length frames)
    ∧ (∀ i : nat, (i ≤ length frames)%nat →
         key_times F !! i = Some (inject_Z (Z.of_nat i) / inject_Z F)%Q)
    ∧ (inject_Z 0 / inject_Z F == 0)%Q
    ∧ (inject_Z F / inject_Z F == 1)%Q
    ∧ key_time_str fmt_6f (inject_Z 0 / inject_Z F)%Q = "0"
    ∧ key_time_str fmt_6f (inject_Z F / inject_Z F)%Q = "1".
Proof.
intros Hne Hfs F.
assert (1 <= F) as HF by (unfold F, len; destruct frames; [done|simpl; lia]).
destruct (svg_parts_run fmt_3f fmt_6f cell gap alive_color dead_color
            frame_duration frames rows cols Hne Hfs)
  as (n & groups & _ & Hrun & Hlen & Hgroups).
eexists. split; [exact Hrun|].
split; [|split; [|split; [|split; [|split; [|split; [|split]]]]]].
- rewrite !length_app. simpl. lia.
- intros k Hk. destruct (Hgroups k Hk) as (g_cells & _ & Hlook).
  exists g_cells. split; [|split].
  + rewrite lookup_app_r by (simpl; lia).
    replace (3 + k - length [xml_declaration;
                             svg_open (Z.of_nat n * (cell + gap) - gap)
                                      (Z.of_nat rows * (cell + gap) - gap);
                             background cell gap dead_color
                               (Z.of_nat rows) (Z.of_nat n)])%nat
      with k by (simpl; lia).
    rewrite lookup_app_l by lia. rewrite Hlook. f_equal.
    unfold frame_group. fold F. by destruct k.
  + unfold values, range. rewrite length_fmap, length_seqZ. unfold F, len. lia.
  + intros i Hi. rewrite values_lookup by (unfold F, len; lia).
    destruct (Z.eqb_spec (Z.of_nat i) (Z.of_nat k)), (decide (i = k)); auto; lia.
- unfold key_times, range. rewrite length_fmap, length_seqZ. unfold F, len. lia.
- intros i Hi. apply key_times_lookup. unfold F, len. lia.
- unfold Qdiv. apply Qmult_0_l.
- apply Qmult_inv_r. unfold Qeq, inject_Z. simpl. lia.
- apply key_time_first.
- by apply key_time_last.
Qed.

Lemma render_frame_groups_witness :
  ∃ parts,
    svg_parts (fun _ => "0.160") (fun _ => "0.500000") 10 2 "#2ea043" "#ebedf0"
      (8 # 100) [[[0; 1]]; [[1; 0]]] = Ok parts
    ∧ length parts = 6%nat.
Proof.
destruct (render_frame_groups (fun _ => "0.160") (fun _ => "0.500000") 10 2
            "#2ea043" "#ebedf0" (8 # 100) [[[0; 1]]; [[1; 0]]] 1 2)
  as (parts & Hrun & Hlen & _).
- done.
- repeat constructor.
- by exists parts.
Defined.

(** C9: with no frames [render_animated_svg] raises [ValueError] and
    leaves the file system as it found it; more generally, whenever the
    document cannot be assembled the exception is raised before
    [os.makedirs] and the write are reached. *)
Theorem render_empty_frames_untouched (fmt_3f fmt_6f : Q → string) (FS : Type)
    (dirname : string → string)
    (makedirs : string → FS → result unit * FS)
    (write_text : string → string → FS → result unit * FS)
    (cell gap : Z) (alive_color dead_color : string) (frame_duration : Q)
    (out_path : string) (fs : FS) :
  render_animated_svg fmt_3f fmt_6f FS dirname makedirs write_text
    cell gap alive_color dead_color frame_duration [] out_path fs
  = (Raise ValueError, fs)
  ∧ ∀ frames e,
      document fmt_3f fmt_6f cell gap alive_color dead_color frame_duration frames
      = Raise e →
      render_animated_svg fmt_3f fmt_6f FS dirname makedirs write_text
        cell gap alive_color dead_color frame_duration frames out_path fs
      = (Raise e, fs).
Proof.
split; [done|]. intros frames e He. unfold render_animated_svg. by rewrite He.
Qed.
End RenderClaims.

(** ** The recognizer on the renderer's tags *)

Section XmlSteps.
Import Validate Xml.

Lemma steps_app m st l1 l2 :
  steps m st (l1 ++ l2)
  = match steps m st l1 with
    | Next m' st' => steps m' st' l2
    | Stop o => Stop o
    end.
Proof.
revert m st. induction l1 as [|c l1 IH]; intros m st; simpl; [done|].
destruct (step m st c); [apply IH|done].
Qed.

Lemma steps_open_name acc l st :
  forallb name_char l = true →
  steps (OpenName acc) st l = Next (OpenName (acc ++ l)) st.
Proof.
revert acc. induction l as [|c l IH]; intros acc Hl.
- simpl. by rewrite app_nil_r.
- simpl in Hl. apply andb_true_iff in Hl as [Hc Hl]. unfold name_char in Hc.
  cbn [steps step].
  destruct (classify c); try done; rewrite IH by done; by rewrite <- app_assoc.
Qed.

Lemma steps_attr_name n a acc l st :
  forallb name_char l = true →
  steps (AttrName n a acc) st l = Next (AttrName n a (acc ++ l)) st.
Proof.
revert acc. induction l as [|c l IH]; intros acc Hl.
- simpl. by rewrite app_nil_r.
- simpl in Hl. apply andb_true_iff in Hl as [Hc Hl]. unfold name_char in Hc.
  cbn [steps step].
  destruct (classify c); try done; rewrite IH by done; by rewrite <- app_assoc.
Qed.

Lemma steps_close_name acc l st :
  forallb name_char l = true →
  steps (CloseName acc) st l = Next (CloseName (acc ++ l)) st.
Proof.
revert acc. induction l as [|c l IH]; intros acc Hl.
- simpl. by rewrite app_nil_r.
- simpl in Hl. apply andb_true_iff in Hl as [Hc Hl]. unfold name_char in Hc.
  cbn [steps step].
  destruct (classify c); try done; rewrite IH by done; by rewrite <- app_assoc.
Qed.

Lemma steps_attr_value n a k acc l st :
  forallb value_char l = true →
  steps (AttrValue n a k acc) st l = Next (AttrValue n a k (acc ++ l)) st.
Proof.
revert acc. induction l as [|c l IH]; intros acc Hl.
- simpl. by rewrite app_nil_r.
- simpl in Hl. apply andb_true_iff in Hl as [Hc Hl]. unfold value_char in Hc.
  cbn [steps step].
  destruct (classify c); try done; rewrite IH by done; by rewrite <- app_assoc.
Qed.

Lemma valid_name_chars s :
  valid_name s = true →
  ∃ c l, chars s = c :: l ∧ classify c = CNameStart
         ∧ forallb name_char l = true.
Proof.
unfold valid_name. destruct (chars s) as [|c l]; [done|].
intros [Hc Hl]%andb_true_iff. exists c, l. split; [done|]. split; [|done].
unfold name_start in Hc. by destruct (classify c).
Qed.

(** One attribute, read after the tag name or after another attribute. *)
Lemma steps_attr n a st kv :
  valid_name kv.1 = true → attr_safe kv.2 = true → a !! kv.1 = None →
  steps (AfterItem n a) st (attr_chars kv)
  = Next (AfterItem n (<[kv.1 := kv.2]> a)) st.
Proof.
destruct kv as [k v]. cbn [fst snd]. intros Hk Hv Hfresh.
destruct (valid_name_chars k Hk) as (c & l & Hchars & Hc & Hl).
unfold attr_chars. cbn [fst snd]. rewrite Hchars.
change (chars " " ++ (c :: l) ++ chars "=" ++ chars dq ++ chars v ++ chars dq)
  with (" "%char :: c :: (l ++ chars "=" ++ chars dq ++ chars v ++ chars dq)).
cbn [steps step].
change (after_item n a st " ") with (Next (InTag n a) st). cbv beta iota.
cbn [step]. rewrite Hc.
rewrite steps_app, steps_attr_name by done.
change (chars "=" ++ chars dq ++ chars v ++ chars dq)
  with ("="%char :: ascii_of_nat 34 :: (chars v ++ chars dq)).
cbn [steps step]. change (classify "=") with CEq. cbv beta iota.
change ([c] ++ l) with (c :: l). rewrite <- Hchars, str_chars.
rewrite Hfresh. cbn [step].
change (classify (ascii_of_nat 34)) with CQuote. cbv beta iota.
rewrite steps_app, steps_attr_value by done.
change (chars dq) with [ascii_of_nat 34]. cbn [steps step].
change (classify (ascii_of_nat 34)) with CQuote. cbv beta iota.
by rewrite app_nil_l, str_chars.
Qed.

Lemma steps_attrs n a st attrs :
  attrs_fresh a attrs →
  steps (AfterItem n a) st (attrs ≫= attr_chars)
  = Next (AfterItem n (attrs_from a attrs)) st.
Proof.
revert a. induction attrs as [|kv attrs IH]; intros a Hfresh; [done|].
destruct Hfresh as (Hk & Hv & Hnew & Hrest).
change ((kv :: attrs) ≫= attr_chars) with (attr_chars kv ++ (attrs ≫= attr_chars)).
rewrite steps_app, steps_attr by done. by apply IH.
Qed.
End XmlSteps.

Section XmlTags.
Import Validate Xml.

(** From [<] to the end of the attributes of a start tag. *)
Lemma steps_tag_head name attrs st rest :
  valid_name name = true → attrs_fresh ∅ attrs →
  (∃ c rest', rest = c :: rest' ∧ (classify c = CSlash ∨ classify c = CGt)) →
  steps Content st (chars "<" ++ chars name ++ (attrs ≫= attr_chars) ++ rest)
  = steps (AfterItem name (attrs_from ∅ attrs)) st rest.
Proof.
intros Hname Hfresh (c0 & rest' & -> & Hc0).
destruct (valid_name_chars name Hname) as (c & l & Hchars & Hc & Hl).
change (chars "<" ++ ?x) with ("<"%char :: x).
rewrite Hchars. change ((c :: l) ++ ?x) with (c :: (l ++ x)).
cbn [steps step]. change (classify "<") with CLt. cbv beta iota.
cbn [step]. rewrite Hc.
rewrite steps_app, steps_open_name by done.
change ([c] ++ l) with (c :: l).
transitivity (steps (AfterItem (str (c :: l)) ∅) st
                ((attrs ≫= attr_chars) ++ c0 :: rest')).
- destruct attrs as [|kv attrs].
  + cbn [mbind list_bind app steps step].
    by destruct Hc0 as [-> | ->].
  + change ((kv :: attrs) ≫= attr_chars)
      with (chars " " ++ (chars kv.1 ++ chars "=" ++ chars dq ++ chars kv.2 ++ chars dq)
            ++ (attrs ≫= attr_chars)).
    change (chars " " ++ ?x) with (" "%char :: x). done.
- rewrite <- Hchars, str_chars. by rewrite steps_app, steps_attrs.
Qed.

Lemma steps_tag_open name attrs st :
  valid_name name = true → attrs_fresh ∅ attrs →
  steps Content st (tag_chars name attrs ">")
  = Next Content ((name, attrs_from ∅ attrs, []) :: st).
Proof.
intros Hname Hfresh. unfold tag_chars.
rewrite steps_tag_head by (try done; by exists ">"%char, []; split; [|right]).
done.
Qed.

Lemma steps_tag_self name attrs st :
  valid_name name = true → attrs_fresh ∅ attrs →
  steps Content st (tag_chars name attrs "/>")
  = add_child (Element name (attrs_from ∅ attrs) []) st.
Proof.
intros Hname Hfresh. unfold tag_chars.
rewrite steps_tag_head by (try done; by exists "/"%char, [">"%char]; split; [|left]).
cbn. by destruct st as [|[[? ?] ?] ?].
Qed.

Lemma steps_tag_close name a kids st :
  valid_name name = true →
  steps Content ((name, a, kids) :: st) (chars "</" ++ chars name ++ chars ">")
  = add_child (Element name a (reverse kids)) st.
Proof.
intros Hname.
destruct (valid_name_chars name Hname) as (c & l & Hchars & Hc & Hl).
change (chars "</" ++ ?x) with ("<"%char :: "/"%char :: x).
rewrite Hchars. change ((c :: l) ++ ?x) with (c :: (l ++ x)).
cbn [steps step]. change (classify "<") with CLt. cbv beta iota. cbn [step].
change (classify "/") with CSlash. cbv beta iota. cbn [step]. rewrite Hc.
rewrite steps_app, steps_close_name by done.
change (chars ">") with [">"%char]. cbn [steps step].
change (classify ">") with CGt. cbv beta iota.
change ([c] ++ l) with (c :: l). rewrite <- Hchars, str_chars.
unfold close. rewrite decide_True by done.
by destruct (add_child (Element name a (reverse kids)) st).
Qed.

(** ** Texts that add one child *)

Lemma emits_self name attrs :
  valid_name name = true → attrs_fresh ∅ attrs →
  emits (tag_chars name attrs "/>") (Element name (attrs_from ∅ attrs) []).
Proof.
intros Hname Hfresh [[n a] kids] st. by rewrite steps_tag_self.
Qed.

Lemma emits_newline l e : emits l e → emits (l ++ chars newline) e.
Proof.
intros He f st. rewrite steps_app, He. done.
Qed.

(** A run of child texts adds the children in order. *)
Lemma steps_children ls es n a kids st :
  Forall2 emits ls es →
  steps Content ((n, a, kids) :: st) (concat ls)
  = Next Content ((n, a, reverse es ++ kids) :: st).
Proof.
intros H. revert kids. induction H as [|l e ls es He _ IH]; intros kids; [done|].
cbn [concat]. rewrite steps_app, He. unfold push. cbn [fst snd].
rewrite IH, reverse_cons, <- app_assoc. done.
Qed.

Lemma emits_container name attrs ls es :
  valid_name name = true → attrs_fresh ∅ attrs → Forall2 emits ls es →
  emits (tag_chars name attrs ">" ++ concat ls
         ++ chars "</" ++ chars name ++ chars ">")
        (Element name (attrs_from ∅ attrs) es).
Proof.
intros Hname Hfresh Hls [[n a] kids] st.
rewrite steps_app, steps_tag_open by done.
rewrite steps_app, (steps_children ls es) by done.
rewrite steps_tag_close by done.
by rewrite app_nil_r, reverse_involutive.
Qed.
End XmlTags.

(** ** The renderer's texts as tags *)

Section RenderShapes.
Import Validate Xml Render.

Lemma chars_join_empty l : chars (join EmptyString l) = concat (chars <$> l).
Proof.
induction l as [|x l IH]; [done|].
destruct l as [|y l].
- simpl. by rewrite app_nil_r.
- change (join EmptyString (x :: y :: l))
    with (x +:+ EmptyString +:+ join EmptyString (y :: l)).
  rewrite !chars_app, IH. done.
Qed.

Lemma chars_join_snoc sep l z :
  chars (join sep (l ++ [z]))
  = concat ((fun x => chars x ++ chars sep) <$> l) ++ chars z.
Proof.
induction l as [|x l IH]; [done|].
assert (∃ y t, l ++ [z] = y :: t) as (y & t & Hyt)
  by (destruct l; simpl; eauto).
cbn [app]. rewrite Hyt.
change (join sep (x :: y :: t)) with (x +:+ sep +:+ join sep (y :: t)).
rewrite <- Hyt, !chars_app, IH. cbn [fmap list_fmap concat].
by rewrite <- !app_assoc.
Qed.

Lemma chars_rect cell x y fill :
  chars (rect cell x y fill) = tag_chars "rect" (rect_attrs cell x y fill) "/>".
Proof.
unfold rect, quoted, tag_chars, rect_attrs, attr_chars.
rewrite !chars_app. cbn [mbind list_bind fst snd]. rewrite <- !app_assoc. done.
Qed.

Lemma attr_safe_app a b : attr_safe (a +:+ b) = attr_safe a && attr_safe b.
Proof. unfold attr_safe. by rewrite chars_app, forallb_app. Qed.

Lemma attr_safe_join sep l :
  attr_safe sep = true → Forall (fun s => attr_safe s = true) l →
  attr_safe (join sep l) = true.
Proof.
intros Hsep Hl. induction Hl as [|x l Hx Hl IH]; [done|].
destruct l as [|y l]; [done|].
change (join sep (x :: y :: l)) with (x +:+ sep +:+ join sep (y :: l)).
rewrite !attr_safe_app, Hx, Hsep, IH. done.
Qed.

Lemma lstrip_chars_safe c l :
  forallb value_char l = true → forallb value_char (lstrip_chars c l) = true.
Proof.
induction l as [|x l IH]; [done|]. intros Hl. simpl.
destruct (decide (x = c)); [|done].
simpl in Hl. apply andb_true_iff in Hl as [_ Hl]. by apply IH.
Qed.

Lemma forallb_reverse {A} (f : A → bool) l :
  forallb f (reverse l) = forallb f l.
Proof.
induction l as [|x l IH]; [done|].
rewrite reverse_cons, forallb_app, IH. simpl. rewrite andb_true_r. apply andb_comm.
Qed.

Lemma attr_safe_rstrip c s : attr_safe s = true → attr_safe (rstrip c s) = true.
Proof.
unfold attr_safe, rstrip. intros Hs. rewrite chars_str, forallb_reverse.
apply lstrip_chars_safe. by rewrite forallb_reverse.
Qed.

Lemma pretty_N_go_safe x s :
  attr_safe s = true → attr_safe (pretty_N_go x s) = true.
Proof.
revert s. induction (N.lt_wf_0 x) as [x _ IH]; intros s Hs.
destruct (decide (x = 0)%N) as [->|Hx]; [by rewrite pretty_N_go_0|].
rewrite pretty_N_go_step by lia. apply IH.
- apply N.div_lt; lia.
- unfold attr_safe in *. cbn [chars String.list_ascii_of_string forallb].
  fold (chars s). rewrite Hs, andb_true_r.
  unfold pretty_N_char. by repeat case_match.
Qed.

Lemma attr_safe_str_int z : attr_safe (str_int z) = true.
Proof.
destruct z as [|p|p]; [done| |]; unfold str_int, pretty, pretty_Z.
- unfold pretty, pretty_positive, pretty, pretty_N.
  rewrite decide_False by done. by apply pretty_N_go_safe.
- rewrite attr_safe_app. unfold pretty, pretty_positive, pretty, pretty_N.
  rewrite decide_False by done. by rewrite pretty_N_go_safe.
Qed.

Lemma pretty_N_go_length x s :
  (String.length s ≤ String.length (pretty_N_go x s))%nat.
Proof.
revert s. induction (N.lt_wf_0 x) as [x _ IH]; intros s.
destruct (decide (x = 0)%N) as [->|Hx]; [by rewrite pretty_N_go_0|].
rewrite pretty_N_go_step by lia.
etrans; [|apply IH; apply N.div_lt; lia]. simpl. lia.
Qed.

Lemma str_int_nonempty z : str_int z ≠ EmptyString.
Proof.
destruct z as [|p|p]; [done| |]; unfold str_int, pretty, pretty_Z; [|done].
unfold pretty, pretty_positive, pretty, pretty_N.
rewrite decide_False by done.
rewrite pretty_N_go_step by lia.
intros H. pose proof (pretty_N_go_length (N.pos p `div` 10)
  (String (pretty_N_char (N.pos p `mod` 10)) EmptyString)) as Hlen.
rewrite H in Hlen. simpl in Hlen. lia.
Qed.
End RenderShapes.

Section RenderEmits.
Import Validate Xml Render.
Variables (fmt_3f fmt_6f : Q → string).
Variables (cell gap : Z) (alive_color dead_color : string) (frame_duration : Q).
Hypothesis fmt_3f_safe : ∀ q, attr_safe (fmt_3f q) = true.
Hypothesis fmt_6f_safe : ∀ q, attr_safe (fmt_6f q) = true.
Hypothesis alive_safe : attr_safe alive_color = true.
Hypothesis dead_safe : attr_safe dead_color = true.

Lemma chars_svg_open w h :
  chars (svg_open w h) = tag_chars "svg" (svg_attrs w h) ">".
Proof.
unfold svg_open, quoted, tag_chars, svg_attrs, attr_chars.
rewrite !chars_app. cbn [mbind list_bind fst snd]. rewrite !chars_app.
rewrite <- !app_assoc. done.
Qed.

Lemma chars_background rows cols :
  ∃ bg, Forall (fun s => ∃ x y, s = rect cell x y dead_color) bg
    ∧ chars (background cell gap dead_color rows cols)
      = tag_chars "g" [("id", "bg")] ">" ++ concat (chars <$> bg)
        ++ chars "</" ++ chars "g" ++ chars ">".
Proof.
eexists. split; [|unfold background, quoted; rewrite !chars_app, chars_join_empty;
                  by rewrite <- !app_assoc].
apply Forall_forall. intros s Hs.
apply list_elem_of_bind in Hs as (r & Hs & _).
apply list_elem_of_bind in Hs as (c & Hs & _).
apply list_elem_of_singleton in Hs. eauto.
Qed.

Lemma chars_frame_group n k g_cells :
  chars (frame_group fmt_3f fmt_6f frame_duration n k g_cells)
  = tag_chars "g" (group_attrs k) ">"
    ++ concat ((chars <$> g_cells)
               ++ [tag_chars "animate"
                     (animate_attrs fmt_3f fmt_6f frame_duration n k) "/>"])
    ++ chars "</" ++ chars "g" ++ chars ">".
Proof.
unfold frame_group, quoted, tag_chars, group_attrs, animate_attrs, attr_chars.
rewrite !chars_app, chars_join_empty. cbn [mbind list_bind fst snd].
rewrite !chars_app. rewrite concat_app. cbn [concat].
rewrite <- !app_assoc. done.
Qed.

Lemma key_time_str_safe t : attr_safe (key_time_str fmt_6f t) = true.
Proof.
unfold key_time_str. destruct (negb _).
- by do 2 apply attr_safe_rstrip.
- by destruct (Qeq_bool t 0).
Qed.

Lemma rect_fresh x y fill :
  attr_safe fill = true → attrs_fresh ∅ (rect_attrs cell x y fill).
Proof.
intros Hfill. unfold rect_attrs. cbn [attrs_fresh fst snd].
rewrite !attr_safe_str_int. repeat split; try done; by vm_compute.
Qed.

Lemma emits_rect x y fill :
  attr_safe fill = true →
  emits (chars (rect cell x y fill))
        (Element "rect" (attrs_from ∅ (rect_attrs cell x y fill)) []).
Proof.
intros Hfill. rewrite chars_rect. apply emits_self; [done|by apply rect_fresh].
Qed.

(** Every cell text adds one [rect] child. *)
Lemma emits_rects fill (cells : list string) :
  attr_safe fill = true →
  Forall (fun s => ∃ x y, s = rect cell x y fill) cells →
  ∃ es, Forall2 emits (chars <$> cells) es
        ∧ Forall (fun e => tag e = "rect") es.
Proof.
intros Hfill Hcells. induction Hcells as [|s cells (x & y & ->) _ (es & Hes & Htags)].
- exists []. split; constructor.
- eexists (_ :: es). split.
  + cbn [fmap list_fmap]. constructor; [by apply emits_rect|done].
  + by constructor.
Qed.

Lemma emits_background rows cols :
  ∃ e, emits (chars (background cell gap dead_color rows cols)) e.
Proof.
destruct (chars_background rows cols) as (bg & Hbg & ->).
destruct (emits_rects dead_color bg dead_safe Hbg) as (es & Hes & _).
eexists. by apply emits_container.
Qed.

Lemma group_fresh k : attrs_fresh ∅ (group_attrs k).
Proof.
unfold group_attrs. cbn [attrs_fresh fst snd].
rewrite attr_safe_app, !attr_safe_str_int. repeat split; try done; by vm_compute.
Qed.

Lemma animate_fresh n k :
  attrs_fresh ∅ (animate_attrs fmt_3f fmt_6f frame_duration n k).
Proof.
unfold animate_attrs. cbn [attrs_fresh fst snd].
assert (attr_safe (key_times_str fmt_6f n) = true) as ->.
{ apply attr_safe_join; [done|]. apply Forall_fmap, Forall_forall.
  intros t _. apply key_time_str_safe. }
assert (attr_safe (join ";" (values n k)) = true) as ->.
{ apply attr_safe_join; [done|]. apply Forall_fmap, Forall_forall.
  intros i _. simpl. by destruct (i =? k). }
rewrite attr_safe_app, fmt_3f_safe. repeat split; try done; by vm_compute.
Qed.

(** The text of a frame group adds one [g] child whose last child is the
    [animate] element. *)
Lemma emits_frame_group n k g_cells :
  Forall (alive_rect cell gap alive_color) g_cells →
  ∃ es,
    emits (chars (frame_group fmt_3f fmt_6f frame_duration n k g_cells))
      (Element "g" (attrs_from ∅ (group_attrs k))
         (es ++ [Element "animate"
                   (attrs_from ∅ (animate_attrs fmt_3f fmt_6f frame_duration n k))
                   []])).
Proof.
intros Hcells.
assert (Forall (fun s => ∃ x y, s = rect cell x y alive_color) g_cells) as Hrects.
{ eapply Forall_impl; [exact Hcells|]. intros s (r & c & ->). eauto. }
destruct (emits_rects alive_color g_cells alive_safe Hrects) as (es & Hes & _).
exists es. rewrite chars_frame_group.
apply emits_container; [done|apply group_fresh|].
apply Forall2_app; [done|]. constructor; [|constructor].
apply emits_self; [done|apply animate_fresh].
Qed.
End RenderEmits.

Section RoundTrip.
Import Validate Xml Render.

Lemma strip_prefix_app p q q' l :
  strip_prefix p q = Some q' → strip_prefix p (q ++ l) = Some (q' ++ l).
Proof.
revert q. induction p as [|x p IH]; intros q; simpl.
- by intros [= ->].
- destruct q as [|y q]; [done|]. simpl. destruct (decide (x = y)); [apply IH|done].
Qed.

Lemma strip_prefix_self p l : strip_prefix p (p ++ l) = Some l.
Proof.
induction p as [|x p IH]; [done|]. simpl. by rewrite decide_True.
Qed.

Lemma svg_fresh w h : attrs_fresh ∅ (svg_attrs w h).
Proof.
unfold svg_attrs. cbn [attrs_fresh fst snd].
rewrite !attr_safe_app, !attr_safe_str_int. repeat split; try done; by vm_compute.
Qed.

(** The whole document: the declaration, the root's start tag, its
    children one per line, the root's end tag. *)
Lemma parse_document w h (children : list string) (es : list element) :
  Forall2 (fun s e => emits (chars s) e) children es →
  parse (join newline ([xml_declaration; svg_open w h] ++ children ++ ["</svg>"]))
  = Parsed (qualify None (Element "svg" (attrs_from ∅ (svg_attrs w h)) es)).
Proof.
intros Hchildren. unfold parse.
rewrite (app_assoc _ children), chars_join_snoc, fmap_app, concat_app.
cbn [fmap list_fmap concat]. rewrite <- !app_assoc.
erewrite (strip_prefix_app (chars "<?") (chars xml_declaration));
  [|vm_compute; reflexivity].
change xml_declaration with declaration. rewrite strip_prefix_self.
unfold run.
rewrite steps_app. change (steps Content [] (chars newline)) with (Next Content []).
cbv beta iota.
rewrite app_nil_l, chars_svg_open, steps_app, steps_tag_open
  by (done || apply svg_fresh).
rewrite steps_app.
change (steps Content ?st (chars newline)) with (Next Content st). cbv beta iota.
rewrite steps_app.
rewrite (steps_children ((fun x => chars x ++ chars newline) <$> children) es).
- change (chars "</svg>") with (chars "</" ++ chars "svg" ++ chars ">").
  rewrite steps_tag_close by done. cbn [add_child].
  by rewrite app_nil_r, reverse_involutive.
- apply Forall2_fmap_l. eapply Forall2_impl; [exact Hchildren|].
  intros s e He. by apply emits_newline.
Qed.

Lemma Forall_exists_Forall2 {A B} (P : A → B → Prop) (l : list A) :
  Forall (fun x => ∃ y, P x y) l → ∃ l', Forall2 P l l'.
Proof.
induction 1 as [|x l (y & Hy) _ (l' & Hl')]; [by exists []|].
exists (y :: l'). by constructor.
Qed.

Lemma group_attrs_no_xmlns k : attrs_from ∅ (group_attrs k) !! "xmlns" = None.
Proof.
unfold attrs_from, group_attrs. cbn [foldl fst snd].
rewrite !lookup_insert_ne by done. apply lookup_empty.
Qed.

Lemma animate_attrs_no_xmlns fmt_3f fmt_6f fd n k :
  attrs_from ∅ (animate_attrs fmt_3f fmt_6f fd n k) !! "xmlns" = None.
Proof.
unfold attrs_from, animate_attrs. cbn [foldl fst snd].
rewrite !lookup_insert_ne by done. apply lookup_empty.
Qed.

Lemma svg_attrs_lookup w h :
  attrs_from ∅ (svg_attrs w h) !! "xmlns" = Some svg_namespace
  ∧ delete "xmlns" (attrs_from ∅ (svg_attrs w h)) !! "width" = Some (str_int w)
  ∧ delete "xmlns" (attrs_from ∅ (svg_attrs w h)) !! "height" = Some (str_int h).
Proof.
unfold attrs_from, svg_attrs. cbn [foldl fst snd]. split; [|split].
- rewrite !lookup_insert_ne by done. by rewrite lookup_insert_eq.
- rewrite lookup_delete_ne by done. rewrite lookup_insert_ne by done.
  by rewrite lookup_insert_eq.
- rewrite lookup_delete_ne by done. by rewrite lookup_insert_eq.
Qed.

Lemma truthy_str_int z : truthy (Some (str_int z)) = true.
Proof.
pose proof (str_int_nonempty z). simpl. by destruct (str_int z).
Qed.

(** The validator on the tree read back from a rendered document. *)
Lemma main_on_rendered_tree read path text w h bg ge ges :
  read path = Some text →
  parse text
  = Parsed (qualify None (Element "svg" (attrs_from ∅ (svg_attrs w h))
                                  (bg :: ge :: ges))) →
  animated_group ge →
  main (ET_parse read) path = 0.
Proof.
intros Hread Hparse (ga & es & aa & -> & Hga & Haa).
destruct (svg_attrs_lookup w h) as (Hns & Hw & Hh).
unfold main, ET_parse. rewrite Hread, Hparse.
cbn [qualify]. rewrite Hns. unfold svg_namespace at 1.
cbn [tag attrib].
change (endswith (lower ("{" +:+ "http://www.w3.org/2000/svg" +:+ "}" +:+ "svg")) "svg")
  with true.
cbv beta iota. rewrite Hw, Hh, !truthy_str_int. cbn [negb orb].
rewrite bool_decide_eq_true_2; [done|].
apply animate_listed.
exists (qualify (Some "http://www.w3.org/2000/svg") (Element "animate" aa [])).
split.
- eapply within_child; [cbn [children fmap list_fmap]; right; left|].
  cbn [qualify]. rewrite Hga.
  eapply within_child; [|apply within_self].
  cbn [children]. rewrite fmap_app. apply elem_of_app. right. left.
- cbn [qualify]. rewrite Haa. by vm_compute.
Qed.

(** C5 (as amended): for a non-empty sequence of equally shaped frames
    and colours that contain no double quote, [<], [&] or control
    character, the rendered document is read back as a tree and the
    validator answers 0. *)
Theorem render_then_validate (fmt_3f fmt_6f : Q → string) (cell gap : Z)
    (alive_color dead_color : string) (frame_duration : Q)
    (frames : list matrix) (rows cols : nat) (path : string) :
  frames ≠ [] → Forall (fun f => shaped f rows cols) frames →
  attr_safe alive_color = true → attr_safe dead_color = true →
  (∀ q, attr_safe (fmt_3f q) = true) → (∀ q, attr_safe (fmt_6f q) = true) →
  ∃ text root,
    document fmt_3f fmt_6f cell gap alive_color dead_color frame_duration frames
    = Ok text
    ∧ parse text = Parsed root
    ∧ ∀ read, read path = Some text → main (ET_parse read) path = 0.
Proof.
intros Hne Hfs Halive Hdead H3 H6.
destruct (svg_parts_run fmt_3f fmt_6f cell gap alive_color dead_color
            frame_duration frames rows cols Hne Hfs)
  as (n & groups & _ & Hrun & Hlen & Hgroups).
set (w := Z.of_nat n * (cell + gap) - gap) in *.
set (h := Z.of_nat rows * (cell + gap) - gap) in *.
destruct (emits_background cell gap dead_color Hdead (Z.of_nat rows) (Z.of_nat n))
  as (bg & Hbg).
assert (Forall (fun g => ∃ e, emits (chars g) e ∧ animated_group e) groups) as Hall.
{ apply Forall_lookup. intros j g Hj.
  destruct (Hgroups j) as (g_cells & Hcells & Hg).
  { apply lookup_lt_Some in Hj. lia. }
  rewrite Hj in Hg. injection Hg as ->.
  destruct (emits_frame_group fmt_3f fmt_6f cell gap alive_color frame_duration
              H3 H6 Halive (len frames) (Z.of_nat j) g_cells Hcells)
    as (es & Hes).
  eexists. split; [exact Hes|].
  eexists _, es, _. split; [done|].
  split; [apply group_attrs_no_xmlns|apply animate_attrs_no_xmlns]. }
apply Forall_exists_Forall2 in Hall as (ges & Hges).
assert (∃ ge ges', ges = ge :: ges' ∧ animated_group ge) as (ge & ges' & -> & Hge).
{ destruct Hges as [|g e groups ges [_ He] _].
  - destruct frames; [done|]. simpl in Hlen. lia.
  - by exists e, ges. }
assert (parse (join newline
                 ([xml_declaration; svg_open w h] ++
                  (background cell gap dead_color (Z.of_nat rows) (Z.of_nat n)
                   :: groups)
                  ++ ["</svg>"]))
        = Parsed (qualify None (Element "svg" (attrs_from ∅ (svg_attrs w h))
                                        (bg :: ge :: ges')))) as Hparse.
{ apply parse_document. constructor; [done|].
  eapply Forall2_impl; [exact Hges|]. by intros g e [He _]. }
eexists _, _. split; [|split].
- unfold document. rewrite Hrun. done.
- exact Hparse.
- intros read Hread. eapply main_on_rendered_tree; [exact Hread|exact Hparse|done].
Qed.

Lemma render_then_validate_witness :
  ∃ text,
    document (fun _ => "0.080") (fun _ => "0.500000") 10 2 "#2ea043" "#ebedf0"
      (8 # 100) [[[0; 1]; [1; 1]]] = Ok text
    ∧ main (ET_parse (fun _ => Some text)) "assets/life.svg" = 0.
Proof.
destruct (render_then_validate (fun _ => "0.080") (fun _ => "0.500000") 10 2
            "#2ea043" "#ebedf0" (8 # 100) [[[0; 1]; [1; 1]]] 2 2 "assets/life.svg")
  as (text & root & Hdoc & _ & Hmain); try done.
- repeat constructor.
- exists text. split; [done|]. by apply Hmain.
Defined.

(** C5, counterexample: with the dead colour [<] the one-cell frame
    sequence renders to a document that is not well formed, and the
    validator answers 2. *)
Lemma render_unescaped_colour_rejected :
  ∃ text,
    document (fun _ => "0.080") (fun _ => "0.500000") 10 2 "#2ea043" "<"
      (8 # 100) [[[0]]] = Ok text
    ∧ parse text = Malformed
    ∧ main (ET_parse (fun _ => Some text)) "assets/life.svg" = 2.
Proof.
eexists. split; [vm_compute; reflexivity|]. split; by vm_compute.
Qed.
End RoundTrip.

(** ** Further properties and the scenarios of the specification *)

Section Scenarios.
Import Life Validate Xml Render.

Lemma cell_at_dead rows cols r c :
  cell_at (replicate rows (replicate cols 0)) r c = 0.
Proof.
unfold cell_at. destruct ((0 <=? r) && (0 <=? c)); [|done].
destruct (replicate rows (replicate cols 0) !! Z.to_nat r) as [row|] eqn:Hrow;
  [|done].
apply lookup_replicate in Hrow as [-> _].
change (default [] (Some ?x)) with x.
destruct (replicate cols 0 !! Z.to_nat c) as [v|] eqn:Hv; [|done].
by apply lookup_replicate in Hv as [-> _].
Qed.

Lemma shaped_all_dead m rows cols :
  shaped m rows cols →
  (∀ r c, 0 <= r < Z.of_nat rows → 0 <= c < Z.of_nat cols → cell_at m r c = 0) →
  m = replicate rows (replicate cols 0).
Proof.
intros Hs Hcells. apply list_eq. intros i.
destruct (decide (i < rows)%nat) as [Hi|Hi].
- rewrite lookup_replicate_2 by done.
  destruct (lookup_lt_is_Some_2 m i) as [row Hrow]; [destruct Hs; lia|].
  rewrite Hrow. f_equal. apply list_eq. intros j.
  assert (length row = cols) as Hlen.
  { destruct Hs as [_ Hrows]. rewrite Forall_lookup in Hrows. by eapply Hrows. }
  destruct (decide (j < cols)%nat) as [Hj|Hj].
  + rewrite lookup_replicate_2 by done.
    destruct (lookup_lt_is_Some_2 row j) as [v Hv]; [lia|].
    rewrite Hv. f_equal.
    specialize (Hcells (Z.of_nat i) (Z.of_nat j)).
    rewrite cell_at_inside, !Nat2Z.id, Hrow in Hcells by lia.
    change (default [] (Some row)) with row in Hcells. rewrite Hv in Hcells.
    apply Hcells; lia.
  + rewrite !lookup_ge_None_2; [done|rewrite length_replicate; lia|lia].
- destruct Hs as [Hlen _].
  rewrite !lookup_ge_None_2; [done|rewrite length_replicate; lia|lia].
Qed.

Lemma life_step_dead rows cols :
  life_step (replicate rows (replicate cols 0))
  = Ok (replicate rows (replicate cols 0)).
Proof.
destruct rows as [|rows]; [done|].
set (m := replicate (S rows) (replicate cols 0)).
assert (shaped m (S rows) cols) as Hs.
{ split; [apply length_replicate|].
  apply Forall_replicate, length_replicate. }
destruct (life_step_shaped m (S rows) cols Hs) as (m' & Hrun & Hs' & Hcells).
{ simpl. by rewrite length_replicate. }
rewrite Hrun. f_equal. apply shaped_all_dead; [done|].
intros r c Hr Hc. rewrite Hcells by done. unfold moore_count, m.
by rewrite !cell_at_dead.
Qed.

(** No spontaneous life: two steps from the all-dead matrix of any size
    return the all-dead matrix. *)
Theorem dead_matrix_stays_dead (rows cols : nat) :
  step_iter 2 (replicate rows (replicate cols 0))
  = Ok (replicate rows (replicate cols 0)).
Proof.
cbn [step_iter bind]. rewrite life_step_dead. cbn [bind]. apply life_step_dead.
Qed.

(** On a rectangular binary matrix a cell with exactly 3 live neighbours
    is alive after the step, and a live cell with at most one live
    neighbour is dead after it. *)
Theorem three_neighbours_live_lone_cell_dies (m : matrix) (r c : Z) :
  rectangular m → binary m →
  0 <= r < len m → 0 <= c < len (default [] (head m)) →
  ∃ m', life_step m = Ok m'
    ∧ (moore_count m r c = 3 → cell_at m' r c = 1)
    ∧ (cell_at m r c = 1 → 0 <= moore_count m r c <= 1 → cell_at m' r c = 0).
Proof.
intros Hrect Hbin Hr Hc.
destruct (life_step_shaped m _ _ (rectangular_shaped m Hrect) eq_refl)
  as (m' & Hrun & _ & Hcells).
exists m'. split; [done|]. rewrite Hcells by done. unfold conway. split.
- intros ->. destruct (binary_cell m r c Hbin) as [-> | ->]; done.
- intros -> Hn. cbn.
  destruct (Z.eqb_spec (moore_count m r c) 2), (Z.eqb_spec (moore_count m r c) 3);
    cbn; lia.
Qed.

Lemma three_neighbours_live_lone_cell_dies_witness :
  ∃ m', life_step [[0; 0; 0]; [1; 1; 1]; [0; 0; 0]] = Ok m'
    ∧ cell_at m' 0 1 = 1.
Proof.
assert (rectangular [[0; 0; 0]; [1; 1; 1]; [0; 0; 0]]) as Hrect
  by (repeat constructor).
assert (binary [[0; 0; 0]; [1; 1; 1]; [0; 0; 0]]) as Hbin
  by (repeat (constructor; auto)).
destruct (three_neighbours_live_lone_cell_dies _ 0 1 Hrect Hbin)
  as (m' & Hrun & Hborn & _); [by vm_compute..|].
exists m'. split; [done|]. by apply Hborn.
Defined.

(** The single live cell: the second frame is all dead. *)
Theorem lone_cell_scenario :
  simulate [[0; 0; 0]; [0; 1; 0]; [0; 0; 0]] 2
  = Ok [[[0; 0; 0]; [0; 1; 0]; [0; 0; 0]]; [[0; 0; 0]; [0; 0; 0]; [0; 0; 0]]].
Proof. by vm_compute. Qed.

(** The blinker: horizontal, vertical, horizontal again. *)
Theorem blinker_scenario :
  simulate [[0; 0; 0]; [1; 1; 1]; [0; 0; 0]] 3
  = Ok [[[0; 0; 0]; [1; 1; 1]; [0; 0; 0]];
        [[0; 1; 0]; [0; 1; 0]; [0; 1; 0]];
        [[0; 0; 0]; [1; 1; 1]; [0; 0; 0]]].
Proof. by vm_compute. Qed.

(** The validator on a sized root without animation, and on a text that
    is not XML. *)
Theorem validator_scenarios :
  main (ET_parse (fun _ =>
          Some ("<svg width=" +:+ quoted "10" +:+ " height=" +:+ quoted "10"
                +:+ "></svg>"))) "plain.svg" = 5
  ∧ main (ET_parse (fun _ => Some "this is not markup")) "broken.svg" = 2.
Proof. split; by vm_compute. Qed.

(** The canvas: for frames of [rows > 0] rows and [cols] columns the
    root's start tag carries width [cols * (cell + gap) - gap] and height
    [rows * (cell + gap) - gap]. *)
Theorem canvas_size (fmt_3f fmt_6f : Q → string) (cell gap : Z)
    (alive_color dead_color : string) (frame_duration : Q)
    (frames : list matrix) (rows cols : nat) :
  frames ≠ [] → Forall (fun f => shaped f rows cols) frames → (0 < rows)%nat →
  ∃ parts,
    svg_parts fmt_3f fmt_6f cell gap alive_color dead_color frame_duration frames
    = Ok parts
    ∧ parts !! 1%nat
      = Some ("<svg xmlns=" +:+ quoted "http://www.w3.org/2000/svg"
              +:+ " viewBox="
              +:+ quoted ("0 0 " +:+ str_int (Z.of_nat cols * (cell + gap) - gap)
                          +:+ " " +:+ str_int (Z.of_nat rows * (cell + gap) - gap))
              +:+ " width=" +:+ quoted (str_int (Z.of_nat cols * (cell + gap) - gap))
              +:+ " height=" +:+ quoted (str_int (Z.of_nat rows * (cell + gap) - gap))
              +:+ ">").
Proof.
intros Hne Hfs Hrows.
destruct (svg_parts_run fmt_3f fmt_6f cell gap alive_color dead_color
            frame_duration frames rows cols Hne Hfs)
  as (n & groups & Hn & Hrun & _).
rewrite (Hn Hrows) in Hrun. eexists. split; [exact Hrun|]. done.
Qed.

Lemma canvas_size_witness :
  ∃ parts,
    svg_parts (fun _ => "0.080") (fun _ => "0.500000") 10 2 "#2ea043" "#ebedf0"
      (8 # 100) [[[0; 1; 0]; [1; 1; 0]]] = Ok parts
    ∧ parts !! 1%nat
      = Some ("<svg xmlns=" +:+ quoted "http://www.w3.org/2000/svg"
              +:+ " viewBox=" +:+ quoted "0 0 34 22"
              +:+ " width=" +:+ quoted "34" +:+ " height=" +:+ quoted "22" +:+ ">").
Proof.
destruct (canvas_size (fun _ => "0.080") (fun _ => "0.500000") 10 2
            "#2ea043" "#ebedf0" (8 # 100) [[[0; 1; 0]; [1; 1; 0]]] 2 3)
  as (parts & Hrun & Hopen); [done|repeat constructor|lia|].
exists parts. split; [done|]. rewrite Hopen. by vm_compute.
Defined.

(** Whatever its position, a shape of a group of pairwise different
    shapes gets the fallback row 0. *)
Lemma fallback_row_distinct_witness :
  Fetch.fallback_row [Fetch.day_a; Fetch.day_b] Fetch.day_b = 0.
Proof.
apply fallback_row_distinct.
- repeat constructor.
  + intros H. apply list_elem_of_singleton in H. apply node_eqb_eq in H.
    by vm_compute in H.
  + intros H. by apply elem_of_nil in H.
- right. left.
Defined.
End Scenarios.

(** ** Loops that raise *)

Section LoopsRaise.
Context {A S : Type}.

(** A loop raises as soon as one of its iterations raises whatever state
    it is run in. *)
Lemma for_each_raises (body : A → S → result S) l s x :
  x ∈ l → (∀ s, ∃ e, body x s = Raise e) → ∃ e, for_each body l s = Raise e.
Proof.
intros Hx Hbody. revert s. induction l as [|y l IH]; intros s.
- by apply elem_of_nil in Hx.
- simpl. apply elem_of_cons in Hx as [<-|Hx].
  + destruct (Hbody s) as (e & ->). by exists e.
  + destruct (body y s) as [s'|e]; cbn [bind]; [by apply IH|by exists e].
Qed.

(** The exceptions of a loop are those of its body. *)
Lemma for_each_exn (P : exn → Prop) (body : A → S → result S) l s e :
  (∀ x s e, body x s = Raise e → P e) → for_each body l s = Raise e → P e.
Proof.
intros Hbody. revert s. induction l as [|y l IH]; intros s; simpl; [done|].
destruct (body y s) as [s'|e'] eqn:E; cbn [bind]; [apply IH|].
intros [= <-]. by eapply Hbody.
Qed.

(** A loop whose iterations are pure updates is a left fold. *)
Lemma for_each_fold (P : S → Prop) (f : S → A → S) (body : A → S → result S) l s :
  P s →
  (∀ x s, x ∈ l → P s → body x s = Ok (f s x) ∧ P (f s x)) →
  for_each body l s = Ok (foldl f s l) ∧ P (foldl f s l).
Proof.
revert s. induction l as [|x l IH]; intros s Hs Hbody; simpl; [done|].
destruct (Hbody x s) as [-> Hs']; [left|done|]. cbn [bind].
apply IH; [done|]. intros y s2 Hy. apply Hbody. by right.
Qed.
End LoopsRaise.

Lemma bind_exn {A B} (P : exn → Prop) (m : result A) (k : A → result B) e :
  (∀ e, m = Raise e → P e) → (∀ a e, k a = Raise e → P e) →
  bind m k = Raise e → P e.
Proof.
destruct m as [a|e']; cbn [bind]; intros Hm Hk H; [by eapply Hk|].
apply Hm. congruence.
Qed.

Lemma py_get_exn {A} (l : list A) i e : py_get l i = Raise e → e = IndexError.
Proof.
unfold py_get, norm_index.
destruct ((0 <=? i) && (i <? Z.of_nat (length l))); cbn [bind].
- destruct (l !! Z.to_nat i); congruence.
- destruct ((- Z.of_nat (length l) <=? i) && (i <? 0)); cbn [bind]; [|congruence].
  destruct (l !! Z.to_nat (Z.of_nat (length l) + i)); congruence.
Qed.

Lemma py_set_exn {A} (l : list A) i x e : py_set l i x = Raise e → e = IndexError.
Proof.
unfold py_set, norm_index.
destruct ((0 <=? i) && (i <? Z.of_nat (length l))); cbn [bind]; [done|].
destruct ((- Z.of_nat (length l) <=? i) && (i <? 0)); cbn [bind]; congruence.
Qed.

Lemma py_get_beyond {A} (l : list A) i : len l <= i → py_get l i = Raise IndexError.
Proof.
intros Hi. unfold py_get, norm_index. fold (len l).
destruct (Z.leb_spec 0 i), (Z.ltb_spec i (len l)), (Z.leb_spec (- len l) i),
  (Z.ltb_spec i 0); cbn [andb bind]; try done; unfold len in *; lia.
Qed.

(** ** More of the LifeEngine *)

Section LifeMore.
Import Life.

Lemma neighbors_exn state rows cols r c e :
  neighbors state rows cols r c = Raise e → e = IndexError.
Proof.
unfold neighbors. apply (for_each_exn (fun e => e = IndexError)). intros dr s e1.
apply (for_each_exn (fun e => e = IndexError)). intros dc s1 e2.
destruct ((dr =? 0) && (dc =? 0)); [done|].
destruct ((0 <=? r + dr) && (r + dr <? rows) && ((0 <=? c + dc) && (c + dc <? cols)));
  [|done].
apply (bind_exn (fun e => e = IndexError)); [apply py_get_exn|]. intros row e3.
apply (bind_exn (fun e => e = IndexError)); [apply py_get_exn|]. done.
Qed.

Lemma set_cell_exn nxt r c v e : set_cell nxt r c v = Raise e → e = IndexError.
Proof.
unfold set_cell. apply (bind_exn (fun e => e = IndexError)); [apply py_get_exn|]. intros row e1.
apply (bind_exn (fun e => e = IndexError)); [apply py_set_exn|]. intros row' e2. apply py_set_exn.
Qed.

(** [IndexError] is the only exception [life_step] can raise. *)
Lemma life_step_exn state e : life_step state = Raise e → e = IndexError.
Proof.
unfold life_step. apply (bind_exn (fun e => e = IndexError)).
- intros e1. destruct (len state =? 0); [done|].
  apply (bind_exn (fun e => e = IndexError)); [apply py_get_exn|done].
- intros cols e1. apply (for_each_exn (fun e => e = IndexError)). intros r nxt e2.
  apply (for_each_exn (fun e => e = IndexError)). intros c nxt' e3.
  apply (bind_exn (fun e => e = IndexError)); [apply neighbors_exn|]. intros n e4.
  apply (bind_exn (fun e => e = IndexError)); [apply py_get_exn|]. intros row e5.
  apply (bind_exn (fun e => e = IndexError)); [apply py_get_exn|]. intros cur e6.
  destruct (cur =? 1); apply set_cell_exn.
Qed.

(** A matrix with a row shorter than its first row is refused: the scan
    of that row runs past its end. *)
Theorem life_step_short_row (state : matrix) (r : nat) (row : list Z) :
  state !! r = Some row →
  (length row < length (default [] (head state)))%nat →
  life_step state = Raise IndexError.
Proof.
intros Hrow Hshort.
assert (∃ e, life_step state = Raise e) as (e & He).
{ unfold life_step. rewrite first_row_len. cbn [bind].
  apply for_each_raises with (x := Z.of_nat r).
  - apply elem_of_seqZ. apply lookup_lt_Some in Hrow. unfold len. lia.
  - intros nxt. apply for_each_raises with (x := Z.of_nat (length row)).
    + apply elem_of_seqZ. lia.
    + intros nxt'.
      destruct (neighbors state (len state)
                  (Z.of_nat (length (default [] (head state))))
                  (Z.of_nat r) (Z.of_nat (length row))) as [n|e];
        cbn [bind]; [|by exists e].
      rewrite (py_get_lookup state (Z.of_nat r) row)
        by (rewrite ?Nat2Z.id; auto; lia).
      cbn [bind]. rewrite py_get_beyond by (unfold len; lia). by eexists. }
rewrite He. f_equal. by apply life_step_exn in He.
Qed.

Lemma life_step_short_row_witness :
  life_step [[0; 1; 0]; [1; 1]; [0; 0; 0]] = Raise IndexError.
Proof.
apply (life_step_short_row _ 1%nat [1; 1]); [done|simpl; lia].
Defined.

Lemma shaped_binary m rows cols :
  shaped m rows cols →
  (∀ r c, 0 <= r < Z.of_nat rows → 0 <= c < Z.of_nat cols →
          cell_at m r c = 0 ∨ cell_at m r c = 1) →
  binary m.
Proof.
intros Hs Hcells. apply Forall_lookup. intros i row Hrow.
apply Forall_lookup. intros j v Hv.
assert (length row = cols) as Hlen.
{ destruct Hs as [_ Hrows]. rewrite Forall_lookup in Hrows. by eapply Hrows. }
pose proof (lookup_lt_Some _ _ _ Hrow). pose proof (lookup_lt_Some _ _ _ Hv).
specialize (Hcells (Z.of_nat i) (Z.of_nat j)).
rewrite cell_at_inside, !Nat2Z.id, Hrow in Hcells by lia.
change (default [] (Some row)) with row in Hcells. rewrite Hv in Hcells.
apply Hcells; destruct Hs; lia.
Qed.

Lemma life_step_total (m : matrix) :
  rectangular m →
  ∃ m', life_step m = Ok m'
    ∧ shaped m' (length m) (length (default [] (head m)))
    ∧ binary m'.
Proof.
intros Hrect.
destruct (life_step_shaped m _ _ (rectangular_shaped m Hrect) eq_refl)
  as (m' & Hrun & Hs & Hcells).
exists m'. split; [done|]. split; [done|].
eapply shaped_binary; [exact Hs|]. intros r c Hr Hc.
rewrite Hcells by done. unfold conway.
destruct (cell_at m r c =? 1), ((moore_count m r c =? 2) || (moore_count m r c =? 3)),
  (moore_count m r c =? 3); auto.
Qed.

(** Whatever integers a rectangular matrix holds, the matrix returned by
    [life_step] has the same shape and holds only 0 and 1. *)
Theorem life_step_output_binary (m : matrix) :
  rectangular m →
  ∃ m', life_step m = Ok m'
    ∧ shaped m' (length m) (length (default [] (head m)))
    ∧ binary m'.
Proof. apply life_step_total. Qed.

Lemma life_step_output_binary_witness :
  ∃ m', life_step [[5; -2; 1]; [1; 7; 1]] = Ok m' ∧ binary m'.
Proof.
destruct (life_step_output_binary [[5; -2; 1]; [1; 7; 1]]) as (m' & Hrun & _ & Hbin).
- repeat constructor.
- by exists m'.
Defined.

Lemma shaped_head (m : matrix) rows cols :
  shaped m rows cols → (rows = 0%nat → cols = 0%nat) →
  length (default [] (head m)) = cols.
Proof.
intros [Hlen Hrows] H0. destruct m as [|row m]; simpl in *.
- symmetry. by apply H0.
- by inversion Hrows.
Qed.

Lemma simulate_total (m : matrix) (steps : Z) :
  rectangular m →
  ∃ frames, simulate m steps = Ok frames
    ∧ head frames = Some m
    ∧ Forall (fun f => shaped f (length m) (length (default [] (head m)))) frames
    ∧ Forall binary (tail frames).
Proof.
intros Hrect.
set (R := length m). set (C := length (default [] (head m))).
assert (R = 0%nat → C = 0%nat) as H0.
{ unfold R, C. intros Hm. by apply nil_length_inv in Hm as ->. }
destruct (for_each_invariant
  (fun '(cur, frames) =>
     shaped cur R C ∧ head frames = Some m
     ∧ Forall (fun f => shaped f R C) frames ∧ Forall binary (tail frames))
  (fun (_ : Z) '(cur, frames) =>
     let* cur' := life_step cur in Ok (cur', frames ++ [cur']))
  (range (steps - 1)) (m, [m])) as ([cur frames] & Hrun & _ & Hhead & Hshapes & Hbin).
- split; [by apply rectangular_shaped|]. split; [done|]. split; [|constructor].
  constructor; [by apply rectangular_shaped|constructor].
- intros _ [cur frames] _ (Hcur & Hhead & Hshapes & Hbin).
  destruct (life_step_total cur (shaped_rectangular _ _ _ Hcur))
    as (cur' & Hstep & Hs' & Hb').
  destruct Hcur as [Hlen Hrows].
  rewrite Hlen, (shaped_head cur R C) in Hs' by done.
  exists (cur', frames ++ [cur']). rewrite Hstep. split; [done|].
  split; [done|]. split; [|split].
  + destruct frames; [done|]. done.
  + apply Forall_app. split; [done|]. by constructor.
  + destruct frames as [|f frames]; [done|]. simpl.
    apply Forall_app. split; [done|]. by constructor.
- exists frames. unfold simulate. by rewrite Hrun.
Qed.

(** The frame sequence of [simulate]: whatever the step count, a
    rectangular seed gives a non-empty sequence that starts with the seed,
    whose frames all have the seed's shape and, after the seed, hold only
    0 and 1. *)
Theorem simulate_frame_sequence (m : matrix) (steps : Z) :
  rectangular m →
  ∃ frames, simulate m steps = Ok frames
    ∧ head frames = Some m
    ∧ Forall (fun f => shaped f (length m) (length (default [] (head m)))) frames
    ∧ Forall binary (tail frames).
Proof. apply simulate_total. Qed.

Lemma simulate_frame_sequence_witness :
  ∃ frames, simulate [[0; 3; 0]; [1; 1; 1]] (-4) = Ok frames
    ∧ head frames = Some [[0; 3; 0]; [1; 1; 1]].
Proof.
destruct (simulate_frame_sequence [[0; 3; 0]; [1; 1; 1]] (-4))
  as (frames & Hrun & Hhead & _).
- repeat constructor.
- by exists frames.
Defined.

(** The loop of [simulate] does not read the frames it has collected. *)
Lemma simulate_loop_prefix (l : list Z) cur acc :
  for_each (fun (_ : Z) '(cur, frames) =>
              let* cur' := life_step cur in Ok (cur', frames ++ [cur']))
    l (cur, acc)
  = match for_each (fun (_ : Z) '(cur, frames) =>
                      let* cur' := life_step cur in Ok (cur', frames ++ [cur']))
            l (cur, []) with
    | Ok (c, gs) => Ok (c, acc ++ gs)
    | Raise e => Raise e
    end.
Proof.
revert cur acc. induction l as [|x l IH]; intros cur acc.
- simpl. by rewrite app_nil_r.
- cbn [for_each]. destruct (life_step cur) as [cur'|e]; cbn [bind]; [|done].
  rewrite (IH cur' (acc ++ [cur'])), (IH cur' ([] ++ [cur'])).
  destruct (for_each _ l (cur', [])) as [[c gs]|e]; [|done].
  by rewrite <- app_assoc.
Qed.

Lemma for_each_same_length {A S} (g : S → result S) (l1 l2 : list A) s :
  length l1 = length l2 →
  for_each (fun _ => g) l1 s = for_each (fun _ => g) l2 s.
Proof.
revert l2 s. induction l1 as [|x l1 IH]; intros [|y l2] s Hlen; try done.
simpl. destruct (g s); cbn [bind]; [|done]. apply IH. simpl in Hlen. lia.
Qed.

Lemma simulate_loop_last (l : list Z) cur acc c acc' :
  for_each (fun (_ : Z) '(cur, frames) =>
              let* cur' := life_step cur in Ok (cur', frames ++ [cur']))
    l (cur, acc) = Ok (c, acc') →
  last acc = Some cur → last acc' = Some c.
Proof.
revert cur acc. induction l as [|x l IH]; intros cur acc; simpl.
- by intros [= -> ->].
- destruct (life_step cur) as [cur'|e]; cbn [bind]; [|done].
  intros Hrun _. eapply IH; [exact Hrun|]. apply last_snoc.
Qed.

(** Resuming from the last frame continues the simulation: the frames of
    [N + M - 1] steps are those of [N] steps followed by the frames of [M]
    steps from the last of them, that frame not repeated. *)
Theorem simulate_resume (m cur : matrix) (N M : Z) (fs : list matrix) :
  1 <= N → 1 <= M →
  simulate m N = Ok fs → last fs = Some cur →
  simulate m (N + M - 1)
  = match simulate cur M with
    | Ok gs => Ok (fs ++ tail gs)
    | Raise e => Raise e
    end.
Proof.
intros HN HM Hrun Hlast. unfold simulate in *.
destruct (for_each _ (range (N - 1)) (m, [m])) as [[c1 fs1]|e] eqn:E1;
  cbn [bind] in Hrun; [|done].
injection Hrun as ->.
assert (c1 = cur) as ->.
{ pose proof (simulate_loop_last _ _ _ _ _ E1 eq_refl). congruence. }
replace (N + M - 1 - 1) with ((N - 1) + (M - 1)) by lia.
unfold range in *. rewrite seqZ_app by lia. rewrite for_each_app, E1. cbn [bind].
rewrite (for_each_same_length _ (seqZ (0 + (N - 1)) (M - 1)) (seqZ 0 (M - 1)))
  by (rewrite !length_seqZ; lia).
rewrite simulate_loop_prefix, (simulate_loop_prefix _ cur [cur]).
destruct (for_each _ (seqZ 0 (M - 1)) (cur, [])) as [[c gs]|e]; done.
Qed.

Lemma simulate_resume_witness :
  simulate [[0; 0; 0]; [1; 1; 1]; [0; 0; 0]] (2 + 2 - 1)
  = Ok ([[[0; 0; 0]; [1; 1; 1]; [0; 0; 0]]; [[0; 1; 0]; [0; 1; 0]; [0; 1; 0]]]
        ++ [[[0; 0; 0]; [1; 1; 1]; [0; 0; 0]]]).
Proof.
rewrite (simulate_resume [[0; 0; 0]; [1; 1; 1]; [0; 0; 0]]
           [[0; 1; 0]; [0; 1; 0]; [0; 1; 0]] 2 2
           [[[0; 0; 0]; [1; 1; 1]; [0; 0; 0]]; [[0; 1; 0]; [0; 1; 0]; [0; 1; 0]]]);
  [reflexivity|lia|lia|reflexivity|reflexivity].
Defined.
End LifeMore.

(** ** More of the GridFetcher *)

Section FetchMore.
Import Fetch.
Variables (int_of_float int_of_str : string → option Z).

Lemma py_set_ok {A} (l : list A) i x l' :
  py_set l i x = Ok l' → ∃ k, l' = <[k := x]> l.
Proof.
unfold py_set. destruct (norm_index l i) as [k|e]; cbn [bind]; [|done].
intros [= <-]. by exists k.
Qed.

Lemma place_rect_good rects rect col col' :
  place_rect int_of_float int_of_str rects rect col = Ok col' →
  good_column col → good_column col'.
Proof.
unfold place_rect. destruct (int_of_str _) as [n|]; cbn [bind]; [|done].
intros (k & ->)%py_set_ok [Hlen Hbin]. split.
- by rewrite length_insert.
- destruct (decide (k < length col)%nat).
  + apply Forall_insert; [done|]. destruct (0 <? n); auto.
  + by rewrite list_insert_ge by lia.
Qed.

Lemma week_good rects rects' col col' :
  for_each (place_rect int_of_float int_of_str rects) rects' col = Ok col' →
  good_column col → good_column col'.
Proof.
revert col. induction rects' as [|rect rects' IH]; intros col; simpl.
- by intros [= <-].
- destruct (place_rect _ _ rects rect col) as [col1|e] eqn:E; cbn [bind]; [|done].
  intros Hrun Hcol. eapply IH; [exact Hrun|]. by eapply place_rect_good.
Qed.

Lemma good_start : good_column (replicate 7 0).
Proof. split; [done|]. apply Forall_replicate. by left. Qed.

Lemma weeks_good weeks columns columns' :
  for_each (add_week int_of_float int_of_str) weeks columns = Ok columns' →
  Forall good_column columns →
  Forall good_column columns'
  ∧ length columns' = (length columns + length (List.filter has_days weeks))%nat.
Proof.
revert columns. induction weeks as [|g weeks IH]; intros columns; simpl.
- intros [= <-] H. split; [done|lia].
- unfold add_week at 1, has_days at 1.
  destruct (find_all "rect" g) as [|rect rects] eqn:Hrects; cbn [bind].
  + apply IH.
  + destruct (for_each _ (rect :: rects) (replicate 7 0)) as [col|e] eqn:E;
      cbn [bind]; [|done].
    intros Hrun Hcols.
    destruct (IH _ Hrun) as [Hgood Hlen].
    * apply Forall_app. split; [done|]. constructor; [|constructor].
      eapply week_good; [exact E|apply good_start].
    * split; [done|]. rewrite Hlen, length_app. simpl. lia.
Qed.

Lemma map_result_pure {A B} (f : A → result B) (g : A → B) l :
  (∀ x, x ∈ l → f x = Ok (g x)) → map_result f l = Ok (g <$> l).
Proof.
induction l as [|x l IH]; intros Hf; simpl; [done|].
rewrite Hf by left. cbn [bind]. rewrite IH by (intros; apply Hf; by right). done.
Qed.

Lemma columns_shaped columns :
  Forall good_column columns → shaped columns (length columns) 7.
Proof.
intros H. split; [done|]. eapply Forall_impl; [exact H|]. by intros col [? _].
Qed.

(** The final comprehension never raises on 7-cell columns. *)
Lemma transpose_run columns :
  Forall good_column columns →
  map_result (fun r =>
    map_result (fun c =>
      let* column := py_get columns c in
      if r <? len column then py_get column r else Ok 0)
      (range (len columns)))
    (range 7)
  = Ok (transposed columns).
Proof.
intros Hgood. unfold transposed.
apply map_result_pure. intros r Hr. apply map_result_pure. intros c Hc.
apply elem_of_seqZ in Hr, Hc. unfold len in Hc.
destruct (shaped_lookup columns _ 7 c r (columns_shaped _ Hgood))
  as (col & v & Hcol & Hv & Hlen & Hcell); [lia|lia|].
rewrite (py_get_lookup columns c col) by (auto; lia). cbn [bind].
unfold len. rewrite Hlen.
destruct (Z.ltb_spec r (Z.of_nat 7)); [|lia].
rewrite (py_get_lookup col r v) by (auto; lia). by rewrite Hcell.
Qed.

Lemma transposed_shaped columns : shaped (transposed columns) 7 (length columns).
Proof.
unfold transposed, range. split.
- by rewrite length_fmap, length_seqZ.
- apply Forall_fmap, Forall_forall. intros r _. simpl.
  rewrite length_fmap, length_seqZ. unfold len. lia.
Qed.

Lemma transposed_cell columns r c :
  0 <= r < 7 → 0 <= c < len columns →
  cell_at (transposed columns) r c = cell_at columns c r.
Proof.
intros Hr Hc. rewrite cell_at_inside by lia. unfold transposed, range.
rewrite list_lookup_fmap, (lookup_seqZ_lt 0 7 (Z.to_nat r)) by lia.
cbn [fmap option_fmap option_map]. change (default [] (Some ?x)) with x.
rewrite list_lookup_fmap, (lookup_seqZ_lt 0 _ (Z.to_nat c)) by lia.
cbn [fmap option_fmap option_map]. change (default 0 (Some ?x)) with x.
f_equal; lia.
Qed.

Lemma transposed_binary columns :
  Forall good_column columns → binary (transposed columns).
Proof.
intros Hgood. eapply shaped_binary; [apply transposed_shaped|].
intros r c Hr Hc. rewrite transposed_cell by (unfold len; lia).
apply binary_cell. eapply Forall_impl; [exact Hgood|]. by intros col [_ ?].
Qed.

Lemma fetch_grid_good (soup : node) (grid : matrix) :
  fetch_contributions_matrix int_of_float int_of_str soup = Ok grid →
  ∃ svg, find "svg" soup = Some svg
    ∧ (1 ≤ length (List.filter has_days (find_all "g" svg)))%nat
    ∧ shaped grid 7 (length (List.filter has_days (find_all "g" svg)))
    ∧ binary grid.
Proof.
unfold fetch_contributions_matrix.
destruct (find "svg" soup) as [svg|]; [|done].
destruct (for_each _ (find_all "g" svg) []) as [columns|e] eqn:E; cbn [bind]; [|done].
destruct (weeks_good _ _ _ E) as [Hgood Hlen]; [constructor|].
destruct columns as [|col columns]; [done|].
rewrite transpose_run by done. intros [= <-].
exists svg. split; [done|]. simpl in Hlen. rewrite <- Hlen.
split; [simpl; lia|]. split; [apply transposed_shaped|by apply transposed_binary].
Qed.

(** What [fetch_contributions_matrix] returns, when it returns: a binary
    matrix of 7 rows with one column per group that holds a day cell, and
    at least one column. *)
Theorem fetch_grid_shape (soup : node) (grid : matrix) :
  fetch_contributions_matrix int_of_float int_of_str soup = Ok grid →
  ∃ svg, find "svg" soup = Some svg
    ∧ (1 ≤ length (List.filter has_days (find_all "g" svg)))%nat
    ∧ shaped grid 7 (length (List.filter has_days (find_all "g" svg)))
    ∧ binary grid.
Proof. apply fetch_grid_good. Qed.
End FetchMore.

Lemma fetch_grid_shape_witness :
  ∃ svg, Fetch.find "svg" (Fetch.one_cell_page "20" "3") = Some svg
    ∧ shaped [[0]; [0]; [1]; [0]; [0]; [0]; [0]] 7
        (length (List.filter has_days (Fetch.find_all "g" svg))).
Proof.
destruct (fetch_grid_shape Fetch.decimal Fetch.decimal (Fetch.one_cell_page "20" "3")
            [[0]; [0]; [1]; [0]; [0]; [0]; [0]] eq_refl)
  as (svg & Hsvg & _ & Hshape & _).
by exists svg.
Defined.

Section FetchCells.
Import Fetch.
Variables (int_of_float int_of_str : string → option Z).

Lemma foldl_insert_length {X} (k : X → nat) (v : X → Z) l col0 :
  length (foldl (fun col x => <[k x := v x]> col) col0 l) = length col0.
Proof.
revert col0. induction l as [|x l IH]; intros col0; simpl; [done|].
by rewrite IH, length_insert.
Qed.

(** After a run of writes, a cell holds the value of the last write that
    addressed it, or its initial value. *)
Lemma foldl_insert_last {X} (k : X → Z) (v : X → Z) l col0 (r : Z) :
  0 <= r < len col0 → (∀ x, x ∈ l → 0 <= k x) →
  foldl (fun col x => <[Z.to_nat (k x) := v x]> col) col0 l !! Z.to_nat r
  = match last (List.filter (fun x => k x =? r) l) with
    | Some x => Some (v x)
    | None => col0 !! Z.to_nat r
    end.
Proof.
intros Hr. induction l as [|x l IH] using rev_ind; intros Hk; [done|].
rewrite foldl_app, List.filter_app. cbn [foldl List.filter].
assert (0 <= k x) as Hx by (apply Hk, elem_of_app; right; left).
assert (∀ y, y ∈ l → 0 <= k y) as Hl
  by (intros y Hy; apply Hk, elem_of_app; by left).
specialize (IH Hl).
destruct (Z.eqb_spec (k x) r) as [Heq|Hne].
- rewrite last_snoc, Heq. apply list_lookup_insert_eq.
  rewrite (foldl_insert_length (fun x => Z.to_nat (k x))). unfold len in Hr. lia.
- rewrite app_nil_r, list_lookup_insert_ne by lia. apply IH.
Qed.

Lemma week_run rects rects' col :
  length col = 7%nat → (∀ rect, rect ∈ rects' → placeable int_of_float int_of_str rects rect) →
  for_each (place_rect int_of_float int_of_str rects) rects' col
  = Ok (foldl (fun col rect =>
                 <[Z.to_nat (row_index int_of_float rects rect)
                   := day_value int_of_str rect]> col) col rects').
Proof.
intros Hcol Hrects.
apply (for_each_fold (fun col => length col = 7%nat)); [done|].
intros rect col1 Hrect Hlen. destruct (Hrects rect Hrect) as [Hrow [n Hn]].
split; [|by rewrite length_insert].
unfold place_rect, day_value. fold (day_text rect). rewrite Hn. cbn [bind].
apply py_set_insert. unfold len. lia.
Qed.

Lemma weeks_run weeks columns :
  (∀ g rect, g ∈ weeks → rect ∈ find_all "rect" g →
             placeable int_of_float int_of_str (find_all "rect" g) rect) →
  for_each (add_week int_of_float int_of_str) weeks columns
  = Ok (columns ++ ((fun g => column_of int_of_float int_of_str (find_all "rect" g))
                    <$> List.filter has_days weeks)).
Proof.
revert columns. induction weeks as [|g weeks IH]; intros columns Hweeks.
- simpl. by rewrite app_nil_r.
- cbn [for_each List.filter]. unfold add_week at 1, has_days at 1.
  assert (∀ g' rect, g' ∈ weeks → rect ∈ find_all "rect" g' →
                     placeable int_of_float int_of_str (find_all "rect" g') rect) as Hrest
    by (intros g' rect Hg'; apply Hweeks; by right).
  pose proof (Hweeks g) as Hg.
  destruct (find_all "rect" g) as [|rect rects] eqn:Hrects; cbn [bind].
  + by apply IH.
  + rewrite week_run; [|apply length_replicate|intros r Hr; apply Hg; [left|done]].
    cbn [bind]. rewrite IH by done. unfold column_of.
    cbn [fmap list_fmap]. rewrite Hrects. by rewrite <- app_assoc.
Qed.

(** On a page whose day cells can all be placed, the grid cell at row
    [r] of the column of a group is the value of the last day cell of the
    group whose row index is [r], and 0 when the group has none. *)
Theorem fetch_cells (soup svg : node) :
  find "svg" soup = Some svg →
  List.filter has_days (find_all "g" svg) ≠ [] →
  (∀ g rect, g ∈ find_all "g" svg → rect ∈ find_all "rect" g →
             placeable int_of_float int_of_str (find_all "rect" g) rect) →
  ∃ grid,
    fetch_contributions_matrix int_of_float int_of_str soup = Ok grid
    ∧ shaped grid 7 (length (List.filter has_days (find_all "g" svg)))
    ∧ ∀ (c : nat) g r,
        List.filter has_days (find_all "g" svg) !! c = Some g → 0 <= r < 7 →
        cell_at grid r (Z.of_nat c)
        = match last (List.filter
                        (fun rect =>
                           row_index int_of_float (find_all "rect" g) rect =? r)
                        (find_all "rect" g)) with
          | Some rect => day_value int_of_str rect
          | None => 0
          end.
Proof.
intros Hsvg Hne Hplace.
set (weeks := List.filter has_days (find_all "g" svg)) in *.
set (columns := (fun g => column_of int_of_float int_of_str (find_all "rect" g))
                <$> weeks).
assert (for_each (add_week int_of_float int_of_str) (find_all "g" svg) []
        = Ok columns) as Hrun by by rewrite weeks_run.
destruct (weeks_good _ _ _ _ _ Hrun) as [Hgood _]; [constructor|].
assert (length columns = length weeks) as Hlen by apply length_fmap.
exists (transposed columns). split; [|split].
- unfold fetch_contributions_matrix. rewrite Hsvg, Hrun. cbn [bind].
  destruct columns as [|col columns'] eqn:Hcols.
  + destruct weeks; [done|discriminate Hlen].
  + by rewrite transpose_run.
- rewrite <- Hlen. apply transposed_shaped.
- intros c g r Hg Hr.
  pose proof (lookup_lt_Some _ _ _ Hg) as Hc.
  rewrite transposed_cell by (unfold len; lia).
  rewrite cell_at_inside, Nat2Z.id by lia. unfold columns.
  rewrite list_lookup_fmap, Hg. cbn [fmap option_fmap option_map].
  change (default [] (Some ?x)) with x. unfold column_of.
  rewrite (foldl_insert_last
             (fun rect => row_index int_of_float (find_all "rect" g) rect)).
  + destruct (last _) as [rect|]; [done|].
    by rewrite lookup_replicate_2 by lia.
  + unfold len. rewrite length_replicate. lia.
  + intros rect Hrect. apply (Hplace g rect); [|done].
    apply list_elem_of_lookup_2 in Hg. apply list_elem_of_In in Hg.
    apply List.filter_In in Hg as [Hg _]. by apply list_elem_of_In.
Qed.
End FetchCells.

Lemma fetch_cells_witness :
  ∃ grid,
    Fetch.fetch_contributions_matrix Fetch.decimal Fetch.decimal
      (Fetch.one_cell_page "20" "3") = Ok grid
    ∧ cell_at grid 2 0 = 1.
Proof.
set (rect := Fetch.Tag "rect" (<["y" := "20"]> {["data-count" := "3"]}) []).
set (g := Fetch.Tag "g" ∅ [rect]).
destruct (fetch_cells Fetch.decimal Fetch.decimal (Fetch.one_cell_page "20" "3")
            (Fetch.Tag "svg" ∅ [g]) eq_refl) as (grid & Hrun & _ & Hcells).
- discriminate.
- intros g' rect' Hg Hrect.
  change (Fetch.find_all "g" (Fetch.Tag "svg" ∅ [g])) with [g] in Hg.
  apply list_elem_of_singleton in Hg as ->.
  change (Fetch.find_all "rect" g) with [rect] in *.
  apply list_elem_of_singleton in Hrect as ->.
  split; [by vm_compute|]. by eexists.
- exists grid. split; [done|].
  pose proof (Hcells 0%nat g 2 eq_refl ltac:(lia)) as Hcell.
  change (Z.of_nat 0) with 0 in Hcell. by rewrite Hcell.
Defined.

Section FetchErrors.
Import Fetch.
Variables (int_of_float int_of_str : string → option Z).

Lemma has_days_member g rect : rect ∈ find_all "rect" g → has_days g = true.
Proof. unfold has_days. destruct (find_all "rect" g); [by intros ?%elem_of_nil|done]. Qed.

(** Without a graphics container, and without a group that holds a day
    cell, [fetch_contributions_matrix] raises its two [RuntimeError]s. *)
Theorem fetch_nothing_to_parse (soup : node) :
  (find "svg" soup = None →
   fetch_contributions_matrix int_of_float int_of_str soup
   = Raise (RuntimeError "Could not find contributions SVG in response"))
  ∧ (∀ svg, find "svg" soup = Some svg →
       List.filter has_days (find_all "g" svg) = [] →
       fetch_contributions_matrix int_of_float int_of_str soup
       = Raise (RuntimeError "No contribution columns parsed")).
Proof.
unfold fetch_contributions_matrix. split.
- by intros ->.
- intros svg -> Hnone. rewrite weeks_run, Hnone; [done|].
  intros g rect Hg Hrect. exfalso.
  assert (g ∈ List.filter has_days (find_all "g" svg)) as Hin.
  { apply list_elem_of_In, List.filter_In. split; [by apply list_elem_of_In|].
    by eapply has_days_member. }
  rewrite Hnone in Hin. by apply elem_of_nil in Hin.
Qed.

Lemma place_rect_exn rects rect col e :
  place_rect int_of_float int_of_str rects rect col = Raise e →
  e = ValueError ∨ e = IndexError.
Proof.
unfold place_rect. destruct (int_of_str _); cbn [bind].
- intros ->%py_set_exn. by right.
- intros [= <-]. by left.
Qed.

Lemma add_week_exn g columns e :
  add_week int_of_float int_of_str g columns = Raise e →
  e = ValueError ∨ e = IndexError.
Proof.
unfold add_week. destruct (find_all "rect" g) as [|rect rects]; [done|].
apply (bind_exn (fun e => e = ValueError ∨ e = IndexError)); [|done].
intros e1. apply (for_each_exn (fun e => e = ValueError ∨ e = IndexError)).
intros x col e2. apply place_rect_exn.
Qed.

(** A day cell whose count text is not a numeral keeps the whole page
    from being read: the function raises [ValueError], or [IndexError] when
    an earlier cell was out of range, and never returns a matrix. *)
Theorem fetch_bad_count (soup svg g rect : node) :
  find "svg" soup = Some svg → g ∈ find_all "g" svg →
  rect ∈ find_all "rect" g → int_of_str (day_text rect) = None →
  fetch_contributions_matrix int_of_float int_of_str soup = Raise ValueError
  ∨ fetch_contributions_matrix int_of_float int_of_str soup = Raise IndexError.
Proof.
intros Hsvg Hg Hrect Hbad. unfold fetch_contributions_matrix. rewrite Hsvg.
destruct (for_each_raises (add_week int_of_float int_of_str)
            (find_all "g" svg) [] g Hg) as (e & He).
- intros columns. unfold add_week.
  destruct (find_all "rect" g) as [|r0 rects] eqn:Hrects;
    [by apply elem_of_nil in Hrect|].
  destruct (for_each_raises
              (place_rect int_of_float int_of_str (r0 :: rects))
              (r0 :: rects) (replicate 7 0) rect Hrect) as (e & He).
  + intros col. unfold place_rect. fold (day_text rect). rewrite Hbad. by eexists.
  + rewrite He. by eexists.
- rewrite He. cbn [bind].
  apply (for_each_exn (fun e => e = ValueError ∨ e = IndexError)) in He
    as [-> | ->]; auto.
  intros x columns e1. apply add_week_exn.
Qed.
End FetchErrors.

Lemma fetch_bad_count_witness :
  Fetch.fetch_contributions_matrix Fetch.decimal Fetch.decimal
    (Fetch.one_cell_page "20" "many") = Raise ValueError
  ∨ Fetch.fetch_contributions_matrix Fetch.decimal Fetch.decimal
      (Fetch.one_cell_page "20" "many") = Raise IndexError.
Proof.
set (rect := Fetch.Tag "rect" (<["y" := "20"]> {["data-count" := "many"]}) []).
set (g := Fetch.Tag "g" ∅ [rect]).
apply (fetch_bad_count Fetch.decimal Fetch.decimal _ (Fetch.Tag "svg" ∅ [g]) g rect);
  [reflexivity| | |reflexivity].
- change (Fetch.find_all "g" (Fetch.Tag "svg" ∅ [g])) with [g]. left.
- change (Fetch.find_all "rect" g) with [rect]. left.
Defined.

(** ** More of the AnimationRenderer *)

Section RenderMore.
Import Render.
Variables (fmt_3f fmt_6f : Q → string).
Variables (cell gap : Z) (alive_color dead_color : string) (frame_duration : Q).

(** A loop that only appends is a comprehension. *)
Lemma for_each_collect {A B} (g : A → list B)
    (body : A → list B → result (list B)) l acc :
  (∀ x acc, x ∈ l → body x acc = Ok (acc ++ g x)) →
  for_each body l acc = Ok (acc ++ (l ≫= g)).
Proof.
revert acc. induction l as [|x l IH]; intros acc Hbody.
- simpl. by rewrite app_nil_r.
- cbn [for_each]. rewrite Hbody by left. cbn [bind].
  rewrite IH by (intros; apply Hbody; by right).
  change ((x :: l) ≫= g) with (g x ++ (l ≫= g)). by rewrite <- app_assoc.
Qed.

(** The cell loop of a frame group collects the rectangles of the live
    cells, row by row. *)
Lemma alive_cells_live frame rows cols (n : nat) :
  shaped frame rows cols → (n ≤ cols)%nat →
  alive_cells cell gap alive_color (Z.of_nat rows) (Z.of_nat n) frame
  = Ok (live_rects cell gap alive_color (Z.of_nat rows) (Z.of_nat n) frame).
Proof.
intros Hs Hn. unfold alive_cells, live_rects.
rewrite (for_each_collect
  (fun r => c ← range (Z.of_nat n);
            if cell_at frame r c =? 1
            then [rect cell (c * (cell + gap)) (r * (cell + gap)) alive_color]
            else [])); [done|].
intros r acc Hr.
apply for_each_collect. intros c acc' Hc.
apply elem_of_seqZ in Hr, Hc.
destruct (shaped_lookup frame rows cols r c) as (row & v & Hrow & Hv & _ & Hcell);
  [done|lia|lia|].
rewrite (py_get_lookup frame r row) by (auto; lia). cbn [bind].
rewrite (py_get_lookup row c v) by (auto; lia). cbn [bind].
rewrite Hcell. destruct (v =? 1); [done|by rewrite app_nil_r].
Qed.

Lemma live_rects_member rows cols frame s :
  s ∈ live_rects cell gap alive_color rows cols frame
  ↔ ∃ r c, 0 <= r < rows ∧ 0 <= c < cols ∧ cell_at frame r c = 1
           ∧ s = rect cell (c * (cell + gap)) (r * (cell + gap)) alive_color.
Proof.
unfold live_rects. rewrite list_elem_of_bind. split.
- intros (r & Hs & Hr). apply list_elem_of_bind in Hs as (c & Hs & Hc).
  apply elem_of_seqZ in Hr, Hc. exists r, c.
  destruct (Z.eqb_spec (cell_at frame r c) 1); [|by apply elem_of_nil in Hs].
  apply list_elem_of_singleton in Hs. repeat split; auto; lia.
- intros (r & c & Hr & Hc & Hcell & ->). exists r. split; [|apply elem_of_seqZ; lia].
  apply list_elem_of_bind. exists c. split; [|apply elem_of_seqZ; lia].
  rewrite Hcell. simpl. left.
Qed.

Lemma bind_singleton {A B} (h : A → B) (l : list A) :
  l ≫= (fun x => [h x]) = h <$> l.
Proof.
induction l as [|x l IH]; [done|].
change ((x :: l) ≫= (fun x => [h x])) with (h x :: (l ≫= (fun x => [h x]))).
by rewrite IH.
Qed.

Lemma enumerate_lookup {A} (l : list A) (k : nat) x :
  l !! k = Some x → enumerate l !! k = Some (Z.of_nat k, x).
Proof.
intros Hx. unfold enumerate, range. rewrite lookup_zip_with.
pose proof (lookup_lt_Some _ _ _ Hx).
rewrite lookup_seqZ_lt by (unfold len; lia). simpl. rewrite Hx. simpl.
by rewrite Z.add_0_l.
Qed.

(** [svg_parts] in closed form for equally shaped frames. *)
Lemma svg_parts_live (frames : list matrix) rows cols :
  frames ≠ [] → Forall (fun f => shaped f rows cols) frames →
  ∃ (n : nat),
    (∀ f, live_rects cell gap alive_color (Z.of_nat rows) (Z.of_nat n) f
          = live_rects cell gap alive_color (Z.of_nat rows) (Z.of_nat cols) f)
    ∧ svg_parts fmt_3f fmt_6f cell gap alive_color dead_color frame_duration frames
      = Ok ([xml_declaration;
             svg_open (Z.of_nat n * (cell + gap) - gap)
                      (Z.of_nat rows * (cell + gap) - gap);
             background cell gap dead_color (Z.of_nat rows) (Z.of_nat n)]
            ++ ((fun '(k, f) =>
                   frame_group fmt_3f fmt_6f frame_duration (len frames) k
                     (live_rects cell gap alive_color
                        (Z.of_nat rows) (Z.of_nat n) f))
                <$> enumerate frames)
            ++ ["</svg>"]).
Proof.
intros Hne Hfs. destruct frames as [|frame0 frames]; [done|].
assert (shaped frame0 rows cols) as Hs0 by (by inversion Hfs).
assert (len frame0 = Z.of_nat rows) as Hrows by (destruct Hs0; unfold len; lia).
pose proof (head_row_len frame0 rows cols Hs0) as Hn.
exists (length (default [] (head frame0))). split.
- intros f. destruct rows as [|rows]; [done|].
  destruct Hs0 as [Hlen0 Hrows0]. destruct frame0 as [|row frame0]; [done|].
  simpl. inversion Hrows0; subst. done.
- unfold svg_parts. rewrite first_row_len. cbn [bind]. rewrite !Hrows.
  set (n := length (default [] (head frame0))) in *.
  rewrite (for_each_collect
    (fun x => [(fun '(k, f) =>
       frame_group fmt_3f fmt_6f frame_duration (len (frame0 :: frames)) k
          (live_rects cell gap alive_color (Z.of_nat rows) (Z.of_nat n) f)) x])).
  + cbn [bind]. rewrite bind_singleton. by rewrite <- app_assoc.
  + intros [k f] acc Hkf.
    assert (shaped f rows cols) as Hf.
    { rewrite Forall_forall in Hfs. apply Hfs.
      apply list_elem_of_lookup in Hkf as (i & Hi).
      unfold enumerate in Hi. apply lookup_zip_with_Some in Hi
        as (x & y & Hxy & _ & Hy). injection Hxy as -> ->.
      by eapply list_elem_of_lookup_2. }
    by rewrite (alive_cells_live f rows cols n Hf Hn).
Qed.
End RenderMore.

Section RenderMoreClaims.
Import Render.

(** The group of frame [k] holds one rectangle for every live cell of
    that frame and nothing else: at [x = c * (cell + gap)],
    [y = r * (cell + gap)] for the live cell [(r, c)], in the alive
    colour, row by row. *)
Theorem render_group_cells (fmt_3f fmt_6f : Q → string) (cell gap : Z)
    (alive_color dead_color : string) (frame_duration : Q)
    (frames : list matrix) (rows cols : nat) (k : nat) (frame : matrix) :
  Forall (fun f => shaped f rows cols) frames → frames !! k = Some frame →
  ∃ parts,
    svg_parts fmt_3f fmt_6f cell gap alive_color dead_color frame_duration frames
    = Ok parts
    ∧ parts !! (3 + k)%nat
      = Some (frame_group fmt_3f fmt_6f frame_duration (len frames) (Z.of_nat k)
                (live_rects cell gap alive_color
                   (Z.of_nat rows) (Z.of_nat cols) frame))
    ∧ ∀ s, s ∈ live_rects cell gap alive_color (Z.of_nat rows) (Z.of_nat cols) frame
           ↔ ∃ r c, 0 <= r < Z.of_nat rows ∧ 0 <= c < Z.of_nat cols
                    ∧ cell_at frame r c = 1
                    ∧ s = rect cell (c * (cell + gap)) (r * (cell + gap))
                            alive_color.
Proof.
intros Hfs Hk.
assert (frames ≠ []) as Hne by (intros ->; done).
destruct (svg_parts_live fmt_3f fmt_6f cell gap alive_color dead_color
            frame_duration frames rows cols Hne Hfs) as (n & Hsame & Hrun).
eexists. split; [exact Hrun|]. split; [|apply live_rects_member].
rewrite lookup_app_r by (simpl; lia).
replace (3 + k - length [xml_declaration;
                         svg_open (Z.of_nat n * (cell + gap) - gap)
                                  (Z.of_nat rows * (cell + gap) - gap);
                         background cell gap dead_color
                           (Z.of_nat rows) (Z.of_nat n)])%nat
  with k by (simpl; lia).
pose proof (enumerate_lookup frames k frame Hk) as Hek.
rewrite lookup_app_l
  by (rewrite length_fmap; by apply lookup_lt_Some in Hek).
rewrite list_lookup_fmap, Hek. simpl. by rewrite Hsame.
Qed.

Lemma render_group_cells_witness :
  ∃ parts,
    svg_parts (fun _ => "0.160") (fun _ => "0.500000") 10 2 "#2ea043" "#ebedf0"
      (8 # 100) [[[0; 1]]; [[1; 0]]] = Ok parts
    ∧ parts !! 4%nat
      = Some (frame_group (fun _ => "0.160") (fun _ => "0.500000") (8 # 100) 2 1
                [rect 10 0 0 "#2ea043"]).
Proof.
destruct (render_group_cells (fun _ => "0.160") (fun _ => "0.500000") 10 2
            "#2ea043" "#ebedf0" (8 # 100) [[[0; 1]]; [[1; 0]]] 1 2 1 [[1; 0]])
  as (parts & Hrun & Hgroup & _).
- repeat constructor.
- done.
- exists parts. split; [done|]. exact Hgroup.
Defined.
End RenderMoreClaims.

Section RenderErrors.
Import Render.
Variables (fmt_3f fmt_6f : Q → string).
Variables (cell gap : Z) (alive_color dead_color : string) (frame_duration : Q).

Lemma alive_cells_exn rows cols frame e :
  alive_cells cell gap alive_color rows cols frame = Raise e → e = IndexError.
Proof.
unfold alive_cells. apply (for_each_exn (fun e => e = IndexError)).
intros r acc e1. apply (for_each_exn (fun e => e = IndexError)).
intros c acc' e2.
apply (bind_exn (fun e => e = IndexError)); [apply py_get_exn|]. intros row e3.
apply (bind_exn (fun e => e = IndexError)); [apply py_get_exn|]. intros v e4.
by destruct (v =? 1).
Qed.

(** Past the check for an empty sequence, assembling the parts can only
    raise [IndexError]. *)
Lemma svg_parts_exn frame0 rest e :
  svg_parts fmt_3f fmt_6f cell gap alive_color dead_color frame_duration
    (frame0 :: rest) = Raise e →
  e = IndexError.
Proof.
unfold svg_parts. rewrite first_row_len. cbn [bind].
apply (bind_exn (fun e => e = IndexError)); [|done].
intros e1. apply (for_each_exn (fun e => e = IndexError)).
intros [k f] parts e2.
apply (bind_exn (fun e => e = IndexError)); [apply alive_cells_exn|done].
Qed.

Lemma alive_cells_missing rows cols frame (r c : nat) :
  Z.of_nat r < rows → Z.of_nat c < cols →
  frame !! r ≫= (fun row => row !! c) = None →
  ∃ e, alive_cells cell gap alive_color rows cols frame = Raise e.
Proof.
intros Hr Hc Hnone. unfold alive_cells.
apply for_each_raises with (x := Z.of_nat r); [apply elem_of_seqZ; lia|].
intros acc. apply for_each_raises with (x := Z.of_nat c); [apply elem_of_seqZ; lia|].
intros acc'. destruct (frame !! r) as [row|] eqn:Hrow.
- rewrite (py_get_lookup frame (Z.of_nat r) row) by (rewrite ?Nat2Z.id; auto; lia).
  cbn [bind]. simpl in Hnone. apply lookup_ge_None in Hnone.
  rewrite py_get_beyond by (unfold len; lia). by eexists.
- apply lookup_ge_None in Hrow.
  rewrite py_get_beyond by (unfold len; lia). by eexists.
Qed.
End RenderErrors.

Section RenderErrorClaims.
Import Render.

(** A frame that lacks a cell of the grid of frame 0 (too few rows, or a
    row too short) makes [render_animated_svg] raise [IndexError] while
    the text is assembled: the file system is not touched. *)
Theorem render_misshapen_frame (fmt_3f fmt_6f : Q → string) (FS : Type)
    (dirname : string → string)
    (makedirs : string → FS → result unit * FS)
    (write_text : string → string → FS → result unit * FS)
    (cell gap : Z) (alive_color dead_color : string) (frame_duration : Q)
    (frame0 : matrix) (rest : list matrix) (f : matrix) (r c : nat)
    (out_path : string) (fs : FS) :
  f ∈ frame0 :: rest →
  (r < length frame0)%nat → (c < length (default [] (head frame0)))%nat →
  f !! r ≫= (fun row => row !! c) = None →
  render_animated_svg fmt_3f fmt_6f FS dirname makedirs write_text
    cell gap alive_color dead_color frame_duration (frame0 :: rest) out_path fs
  = (Raise IndexError, fs).
Proof.
intros Hf Hr Hc Hnone.
assert (∃ e, svg_parts fmt_3f fmt_6f cell gap alive_color dead_color
               frame_duration (frame0 :: rest) = Raise e) as (e & He).
{ unfold svg_parts. rewrite first_row_len. cbn [bind].
  apply list_elem_of_lookup in Hf as (k & Hk).
  apply enumerate_lookup in Hk. apply list_elem_of_lookup_2 in Hk.
  destruct (for_each_raises
    (fun '(k, frame) parts =>
       let* g_cells := alive_cells cell gap alive_color (len frame0)
                         (Z.of_nat (length (default [] (head frame0)))) frame in
       Ok (parts ++ [frame_group fmt_3f fmt_6f frame_duration
                       (len (frame0 :: rest)) k g_cells]))
    (enumerate (frame0 :: rest))
    [xml_declaration;
     svg_open (Z.of_nat (length (default [] (head frame0))) * (cell + gap) - gap)
              (len frame0 * (cell + gap) - gap);
     background cell gap dead_color (len frame0)
       (Z.of_nat (length (default [] (head frame0))))]
    _ Hk) as (e & He).
  - intros parts.
    destruct (alive_cells_missing cell gap alive_color (len frame0)
                (Z.of_nat (length (default [] (head frame0)))) f r c)
      as (e & He); [unfold len; lia|lia|done|].
    rewrite He. by eexists.
  - rewrite He. by eexists. }
unfold render_animated_svg, document. rewrite He. cbn [bind].
by apply svg_parts_exn in He as ->.
Qed.

Lemma render_misshapen_frame_witness :
  render_animated_svg (fun _ => "0.160") (fun _ => "0.500000") (list string)
    (fun p => p) (fun _ fs => (Ok tt, fs)) (fun p _ fs => (Ok tt, p :: fs))
    10 2 "#2ea043" "#ebedf0" (8 # 100) [[[0; 1]]; [[1]]] "assets/life.svg" []
  = (Raise IndexError, []).
Proof.
apply (render_misshapen_frame _ _ _ _ _ _ _ _ _ _ _ _ _ [[1]] 0 1);
  [right; left|simpl; lia|simpl; lia|done].
Defined.
End RenderErrorClaims.

(** ** The scripts from the command line *)

Section Pipeline.
Import Validate Xml Render Cli.



(** A failed fetch ends the run with its exception and no effect on the
    file system. *)
Theorem generate_main_fetch_fails
    (int_of_float int_of_str : string → option Z) (fmt_3f fmt_6f : Q → string)
    (FS : Type) (dirname : string → string)
    (makedirs : string → FS → result unit * FS)
    (write_text : string → string → FS → result unit * FS)
    (get_soup : string → result Fetch.node)
    (a : args) (fs : FS) (e : exn) :
  fetch int_of_float int_of_str get_soup (username a) = Raise e →
  generate_main int_of_float int_of_str fmt_3f fmt_6f FS dirname makedirs
    write_text get_soup a fs
  = (Raise e, fs).
Proof. intros H. unfold generate_main. by rewrite H. Qed.

(** The exit codes of the validator script: 1 exactly for a wrong number
    of arguments, otherwise the answer of [main], which is 0, 2, 3, 4 or 5. *)
Theorem validate_script_exit_codes (ET_parse : string → option element)
    (argv : list string) :
  (validate_script ET_parse argv = 1 ↔ length argv ≠ 2%nat)
  ∧ (∀ name path, argv = [name; path] →
       validate_script ET_parse argv = main ET_parse path)
  ∧ validate_script ET_parse argv ∈ [0; 1; 2; 3; 4; 5].
Proof.
assert (∀ path, In (main ET_parse path) [0; 2; 3; 4; 5]) as Hmain.
{ intros path. unfold main. repeat case_match; simpl; lia. }
rewrite list_elem_of_In.
destruct (decide (length argv = 2%nat)) as [Hlen|Hlen].
- destruct argv as [|name [|path [|x argv]]]; try done.
  unfold validate_script. change (len [name; path] =? 2) with true.
  cbn [negb lookup list_lookup]. specialize (Hmain path). simpl in Hmain.
  split; [|split].
  + split; [lia|done].
  + by intros ? ? [= _ ->].
  + simpl. lia.
- unfold validate_script.
  assert ((len argv =? 2) = false) as Hne by (apply Z.eqb_neq; unfold len; lia).
  rewrite Hne. cbn [negb]. split; [done|]. split; [by intros ? ? ->|]. simpl. lia.
Qed.
End Pipeline.


(** ** The mirror images of the LifeEngine *)

Section LifeMirror.
Import Life.

(** Two matrices of one shape with the same cells are the same. *)
Lemma shaped_ext (m1 m2 : matrix) rows cols :
  shaped m1 rows cols → shaped m2 rows cols →
  (∀ r c, 0 <= r < Z.of_nat rows → 0 <= c < Z.of_nat cols →
          cell_at m1 r c = cell_at m2 r c) →
  m1 = m2.
Proof.
intros H1 H2 Hcells. apply list_eq. intros i.
destruct (decide (i < rows)%nat) as [Hi|Hi].
- destruct (lookup_lt_is_Some_2 m1 i) as [row1 Hrow1]; [destruct H1; lia|].
  destruct (lookup_lt_is_Some_2 m2 i) as [row2 Hrow2]; [destruct H2; lia|].
  rewrite Hrow1, Hrow2. f_equal. apply list_eq. intros j.
  assert (length row1 = cols) as Hl1.
  { destruct H1 as [_ Hr]. rewrite Forall_lookup in Hr. by eapply Hr. }
  assert (length row2 = cols) as Hl2.
  { destruct H2 as [_ Hr]. rewrite Forall_lookup in Hr. by eapply Hr. }
  destruct (decide (j < cols)%nat) as [Hj|Hj].
  + destruct (lookup_lt_is_Some_2 row1 j) as [v1 Hv1]; [lia|].
    destruct (lookup_lt_is_Some_2 row2 j) as [v2 Hv2]; [lia|].
    rewrite Hv1, Hv2. f_equal.
    specialize (Hcells (Z.of_nat i) (Z.of_nat j)).
    rewrite !cell_at_inside, !Nat2Z.id, Hrow1, Hrow2 in Hcells by lia.
    change (default [] (Some ?x)) with x in Hcells.
    rewrite Hv1, Hv2 in Hcells. apply Hcells; lia.
  + by rewrite !lookup_ge_None_2 by lia.
- destruct H1 as [Hlen1 _], H2 as [Hlen2 _].
  by rewrite !lookup_ge_None_2 by lia.
Qed.

Lemma reverse_shaped (m : matrix) rows cols :
  shaped m rows cols → shaped (reverse m) rows cols.
Proof.
intros [Hlen Hrows]. split; [by rewrite length_reverse|].
by apply Forall_reverse.
Qed.

Lemma cell_at_reverse (m : matrix) rows cols r c :
  shaped m rows cols →
  cell_at (reverse m) r c = cell_at m (Z.of_nat rows - 1 - r) c.
Proof.
intros Hs.
destruct (decide (0 <= r < Z.of_nat rows ∧ 0 <= c < Z.of_nat cols)) as [[Hr Hc]|Hout].
- rewrite !cell_at_inside by lia. destruct Hs as [Hlen _].
  rewrite reverse_lookup by lia.
  by replace (length m - S (Z.to_nat r))%nat
    with (Z.to_nat (Z.of_nat rows - 1 - r)) by lia.
- rewrite (shaped_outside (reverse m) rows cols) by (auto using reverse_shaped).
  rewrite (shaped_outside m rows cols); [done|done|lia].
Qed.

Lemma moore_count_reverse (m : matrix) rows cols r c :
  shaped m rows cols →
  moore_count (reverse m) r c = moore_count m (Z.of_nat rows - 1 - r) c.
Proof.
intros Hs. unfold moore_count. rewrite !(cell_at_reverse m rows cols) by done.
replace (Z.of_nat rows - 1 - (r - 1)) with (Z.of_nat rows - 1 - r + 1) by lia.
replace (Z.of_nat rows - 1 - (r + 1)) with (Z.of_nat rows - 1 - r - 1) by lia.
lia.
Qed.

(** [life_step] commutes with turning the matrix upside down. *)
Theorem life_step_upside_down (m : matrix) :
  rectangular m →
  ∃ m', life_step m = Ok m' ∧ life_step (reverse m) = Ok (reverse m').
Proof.
intros Hrect.
set (R := length m). set (C := length (default [] (head m))).
assert (shaped m R C) as Hs by by apply rectangular_shaped.
assert (R = 0%nat → C = 0%nat) as H0.
{ unfold R, C. intros Hm. by apply nil_length_inv in Hm as ->. }
destruct (life_step_shaped m R C Hs eq_refl) as (m' & Hrun & Hs' & Hcells).
pose proof (reverse_shaped m R C Hs) as Hsr.
destruct (life_step_shaped (reverse m) R C Hsr) as (m1 & Hrun1 & Hs1 & Hcells1).
{ symmetry. by apply (shaped_head (reverse m) R C). }
exists m'. split; [done|]. rewrite Hrun1. f_equal.
apply (shaped_ext _ _ R C); [done|by apply reverse_shaped|].
intros r c Hr Hc.
rewrite Hcells1, (cell_at_reverse m' R C), Hcells by (done || lia).
by rewrite (cell_at_reverse m R C), (moore_count_reverse m R C).
Qed.

Lemma life_step_upside_down_witness :
  ∃ m', life_step [[1; 1; 0]; [1; 0; 0]; [0; 0; 0]] = Ok m'
    ∧ life_step (reverse [[1; 1; 0]; [1; 0; 0]; [0; 0; 0]]) = Ok (reverse m').
Proof.
apply life_step_upside_down. repeat constructor.
Defined.

Lemma mirror_shaped (m : matrix) rows cols :
  shaped m rows cols → shaped (reverse <$> m) rows cols.
Proof.
intros [Hlen Hrows]. split; [by rewrite length_fmap|].
apply Forall_fmap. eapply Forall_impl; [exact Hrows|].
intros row Hrow. simpl. by rewrite length_reverse.
Qed.

Lemma cell_at_mirror (m : matrix) rows cols r c :
  shaped m rows cols →
  cell_at (reverse <$> m) r c = cell_at m r (Z.of_nat cols - 1 - c).
Proof.
intros Hs.
destruct (decide (0 <= r < Z.of_nat rows ∧ 0 <= c < Z.of_nat cols)) as [[Hr Hc]|Hout].
- destruct (shaped_lookup m rows cols r c Hs Hr Hc) as (row & _ & Hrow & _ & Hlen & _).
  rewrite !cell_at_inside by lia. rewrite list_lookup_fmap, Hrow.
  cbn [fmap option_fmap option_map]. change (default [] (Some ?x)) with x.
  rewrite reverse_lookup by lia.
  by replace (length row - S (Z.to_nat c))%nat
    with (Z.to_nat (Z.of_nat cols - 1 - c)) by lia.
- rewrite (shaped_outside (reverse <$> m) rows cols) by (auto using mirror_shaped).
  rewrite (shaped_outside m rows cols); [done|done|lia].
Qed.

Lemma moore_count_mirror (m : matrix) rows cols r c :
  shaped m rows cols →
  moore_count (reverse <$> m) r c = moore_count m r (Z.of_nat cols - 1 - c).
Proof.
intros Hs. unfold moore_count. rewrite !(cell_at_mirror m rows cols) by done.
replace (Z.of_nat cols - 1 - (c - 1)) with (Z.of_nat cols - 1 - c + 1) by lia.
replace (Z.of_nat cols - 1 - (c + 1)) with (Z.of_nat cols - 1 - c - 1) by lia.
lia.
Qed.

(** [life_step] commutes with mirroring every row. *)
Theorem life_step_mirrored (m : matrix) :
  rectangular m →
  ∃ m', life_step m = Ok m'
    ∧ life_step (reverse <$> m) = Ok (reverse <$> m').
Proof.
intros Hrect.
set (R := length m). set (C := length (default [] (head m))).
assert (shaped m R C) as Hs by by apply rectangular_shaped.
assert (R = 0%nat → C = 0%nat) as H0.
{ unfold R, C. intros Hm. by apply nil_length_inv in Hm as ->. }
destruct (life_step_shaped m R C Hs eq_refl) as (m' & Hrun & Hs' & Hcells).
pose proof (mirror_shaped m R C Hs) as Hsr.
destruct (life_step_shaped (reverse <$> m) R C Hsr) as (m1 & Hrun1 & Hs1 & Hcells1).
{ symmetry. by apply (shaped_head (reverse <$> m) R C). }
exists m'. split; [done|]. rewrite Hrun1. f_equal.
apply (shaped_ext _ _ R C); [done|by apply mirror_shaped|].
intros r c Hr Hc.
rewrite Hcells1, (cell_at_mirror m' R C), Hcells by (done || lia).
by rewrite (cell_at_mirror m R C), (moore_count_mirror m R C).
Qed.

Lemma life_step_mirrored_witness :
  ∃ m', life_step [[1; 1; 0]; [1; 0; 0]; [0; 0; 0]] = Ok m'
    ∧ life_step (reverse <$> [[1; 1; 0]; [1; 0; 0]; [0; 0; 0]])
      = Ok (reverse <$> m').
Proof.
apply life_step_mirrored. repeat constructor.
Defined.
End LifeMirror.

(** ** Nested groups and key times *)

Section FetchNested.
Import Fetch.




End FetchNested.

Section KeyTimes.
Import Render.
Variable fmt_6f : Q → string.

Lemma lstrip_chars_spec c l :
  ∃ n, l = replicate n c ++ lstrip_chars c l
       ∧ head (lstrip_chars c l) ≠ Some c.
Proof.
induction l as [|x l (n & Hl & Hhead)]; simpl.
- by exists 0%nat.
- destruct (decide (x = c)) as [->|Hx].
  + exists (S n). simpl. by rewrite <- Hl.
  + exists 0%nat. split; [done|]. simpl. congruence.
Qed.

Lemma rstrip_spec c s :
  ∃ n, chars s = chars (rstrip c s) ++ replicate n c
       ∧ last (chars (rstrip c s)) ≠ Some c.
Proof.
unfold rstrip. rewrite chars_str.
destruct (lstrip_chars_spec c (reverse (chars s))) as (n & Hl & Hhead).
exists n. split.
- rewrite <- (reverse_involutive (chars s)), Hl at 1.
  rewrite reverse_app, reverse_replicate. done.
- by rewrite last_reverse.
Qed.

(** The text of a key time: the two ends are written [0] and [1]; any
    other time is its six-decimal text without the zeros at its end and
    without the decimal points left at the end after that, so it never
    ends in a point, and ends in a zero only where a point was taken
    off. *)
Theorem key_time_str_stripped (t : Q) :
  (Qeq_bool t 0 = true → key_time_str fmt_6f t = "0")
  ∧ (Qeq_bool t 0 = false → Qeq_bool t 1 = true → key_time_str fmt_6f t = "1")
  ∧ (Qeq_bool t 0 = false → Qeq_bool t 1 = false →
     ∃ points zeros : nat,
       chars (fmt_6f t)
       = chars (key_time_str fmt_6f t)
         ++ replicate points "."%char ++ replicate zeros "0"%char
       ∧ last (chars (key_time_str fmt_6f t)) ≠ Some "."%char
       ∧ (points = 0%nat →
          last (chars (key_time_str fmt_6f t)) ≠ Some "0"%char)).
Proof.
unfold key_time_str. split; [by intros ->|]. split; [by intros -> ->|].
intros -> ->. cbn [orb negb].
destruct (rstrip_spec "0" (fmt_6f t)) as (zeros & Hz & Hlast0).
destruct (rstrip_spec "." (rstrip "0" (fmt_6f t))) as (points & Hp & Hlastp).
exists points, zeros. split; [|split; [done|]].
- by rewrite Hz, Hp, <- app_assoc.
- intros ->. simpl in Hp. rewrite app_nil_r in Hp. by rewrite <- Hp.
Qed.
End KeyTimes.
